(** * The spike-sorting tutorial notebook ([1_spikesorting.py])

    The repository is one exported Jupyter notebook: a sequence of cells, each
    a short list of Python statements that build keys and call into DataJoint
    tables, numpy and sortingview.  The development has three layers:

    - [Syntax]: the abstract syntax of the Python fragment the notebook is
      written in, and [notebook], the cells transcribed statement by statement
      (each with the line number of the exported script);
    - [Store] and [Framework]: Python values, the object heap (dicts, lists
      and ndarrays are shared mutable objects), and the relational tables the
      notebook talks to;
    - [Interp]: an evaluator for the fragment, run cell by cell.

    Floating-point numbers are IEEE binary64 ([PrimFloat]), as numpy's
    float64. *)

From Stdlib Require Import String Ascii List ZArith Bool Lia Floats.
Import ListNotations.
Set Warnings "-register-all".
Local Open Scope string_scope.
Local Open Scope list_scope.

(* ===================================================================== *)
(** ** Abstract syntax *)

Module Syntax.

Inductive binop := BAnd | BAdd | BSub | BMul | BDiv.

(** Expressions.  [ECall f args kwargs] is [f(args, k=v, ...)]; a method call
    [r.m(...)] is [ECall (EAttr r m) ...].  [EFmt] is an f-string: literal
    pieces and [{expr:spec}] fields.  [EListComp elt targets iter cond] is
    [[elt for targets in iter if cond]]. *)
Inductive expr :=
| EName (x : string)
| EStr (s : string)
| EInt (z : Z)
| EFloat (f : float)
| EBool (b : bool)
| EAttr (e : expr) (a : string)
| ECall (f : expr) (args : list expr) (kwargs : list (string * expr))
| ESub (e : expr) (i : expr)
| EBin (op : binop) (l r : expr)
| EIn (l r : expr)
| EDict (items : list (expr * expr))
| EList (items : list expr)
| EFmt (parts : list (string + expr * string))
| EListComp (elt : expr) (targets : list string) (iter : expr) (cond : option expr).

Inductive target :=
| TName (x : string)
| TSub (e : expr) (i : expr).

(** Statements.  The notebook itself uses imports, assignments, expression
    statements and one [if]; loops and [try] are part of the language so that
    their absence from the notebook is a fact about the notebook. *)
Inductive stmt :=
| SImport (module : string) (asname : string)
| SImportFrom (module : string) (names : list string)
| SAssign (t : target) (e : expr)
| SExpr (e : expr)
| SIf (c : expr) (body : list stmt) (orelse : list stmt)
| SFor (targets : list string) (iter : expr) (body : list stmt)
| STry (body : list stmt) (handler : list stmt).

(** A cell is the list of its top-level statements, each with its line. *)
Definition cell := list (nat * stmt).

(** Shorthands used in the transcription. *)
Definition call (f : expr) (args : list expr) : expr := ECall f args [].
Definition meth (r : expr) (m : string) (args : list expr) : expr :=
  ECall (EAttr r m) args [].
Definition skip_dup : list (string * expr) := [("skip_duplicates", EBool true)].

Notation "$ x" := (EName x) (at level 1, format "$ x").
Notation "' s" := (EStr s) (at level 1, format "' s").
Notation "a &' b" := (EBin BAnd a b) (at level 40, left associativity).

(* ------------------------------------------------------------------- *)
(** *** The notebook, cell by cell *)

(** Lines 41-60. *)
Definition cell_imports : cell :=
  [ (41, SImport "os" "os");
    (42, SImport "numpy" "np");
    (43, SImport "datajoint" "dj");
    (44, SImport "nwb_datajoint" "nd");
    (46, SImport "warnings" "warnings");
    (47, SExpr (ECall (EAttr $"warnings" "simplefilter") ['"ignore"]
                      [("category", $"DeprecationWarning")]));
    (48, SExpr (ECall (EAttr $"warnings" "simplefilter") ['"ignore"]
                      [("category", $"ResourceWarning")]));
    (49, SImportFrom "nwb_datajoint.common"
           [ "SortGroup"; "SpikeSortingFilterParameters";
             "SpikeSortingArtifactDetectionParameters";
             "SpikeSortingRecordingSelection"; "SpikeSortingRecording";
             "SpikeSortingWorkspace"; "SortingID";
             "SpikeSorter"; "SpikeSorterParameters";
             "SpikeSortingSelection"; "SpikeSorting";
             "SpikeSortingMetricParameters";
             "AutomaticCurationParameters"; "AutomaticCurationSelection";
             "AutomaticCuration"; "Nwbfile";
             "CuratedSpikeSortingSelection"; "CuratedSpikeSorting";
             "IntervalList"; "SortInterval";
             "LabMember"; "LabTeam"; "Raw"; "Session" ]) ].

(** Lines 68-70. *)
Definition cell_identity : cell :=
  [ (68, SAssign (TName "your_name") '"FirstName LastName");
    (69, SAssign (TName "your_email") '"gmail@gmail.com");
    (70, SAssign (TName "datajoint_username") '"user") ].

(** Lines 76-80. *)
Definition cell_team : cell :=
  [ (76, SAssign (TName "lorenlab_team_members")
           (meth (meth (meth (call $"LabTeam" []) "LabTeamMember" []
                          &' EDict [('"team_name", '"LorenLab")])
                       "fetch" ['"lab_member_name"])
                 "tolist" []));
    (77, SExpr (meth $"LabMember" "insert_from_name" [$"your_name"]));
    (78, SExpr (ECall (EAttr (EAttr $"LabMember" "LabMemberInfo") "insert1")
                      [EList [$"your_name"; $"your_email"; $"datajoint_username"]]
                      skip_dup));
    (79, SExpr (ECall (EAttr (EAttr $"LabTeam" "LabTeamMember") "insert1")
                      [EDict [('"team_name", '"LorenLab");
                              ('"lab_member_name", $"your_name")]]
                      skip_dup)) ].

(** Lines 88-89: the exercise left for the reader, blanks included. *)
Definition cell_exercise : cell :=
  [ (88, SIf (EIn $"your_name"
                  (meth (meth (meth $"LabTeam" "_____" []
                                 &' EDict [($"___", $"____")])
                              "fetch" [$"______"])
                        "tolist" []))
             [ SExpr (call $"print" ['"You made it in!"]) ]
             []) ].

(** Lines 98-99. *)
Definition cell_nwb_file : cell :=
  [ (98, SExpr (meth $"nd" "insert_sessions" ['"montague20200802_tutorial.nwb"]));
    (99, SAssign (TName "nwb_file_name") '"montague20200802_tutorial_.nwb") ].

(** Line 115. *)
Definition cell_sort_group : cell :=
  [ (115, SExpr (meth (call $"SortGroup" []) "set_group_by_shank"
                      [$"nwb_file_name"])) ].

(** Line 123. *)
Definition cell_sort_group_view : cell :=
  [ (123, SExpr (EAttr $"SortGroup" "SortGroupElectrode"
                   &' EDict [('"nwb_file_name", $"nwb_file_name")])) ].

(** Line 132. *)
Definition cell_interval_list_view : cell :=
  [ (132, SExpr ($"IntervalList"
                   &' EDict [('"nwb_file_name", $"nwb_file_name")])) ].

(** Lines 140-143. *)
Definition cell_interval_list : cell :=
  [ (140, SAssign (TName "interval_list_name") '"02_r1");
    (141, SAssign (TName "interval_list")
            (meth ($"IntervalList"
                     &' EDict [('"nwb_file_name", $"nwb_file_name");
                               ('"interval_list_name", $"interval_list_name")])
                  "fetch1" ['"valid_times"]));
    (143, SExpr (call $"print"
            [EFmt [ inl "IntervalList begins as a ";
                    inr (meth $"np" "round"
                           [ EBin BDiv
                               (EBin BSub
                                  (ESub (ESub $"interval_list" (EInt 0)) (EInt 1))
                                  (ESub (ESub $"interval_list" (EInt 0)) (EInt 0)))
                               (EInt 60);
                             EInt 0 ], "g");
                    inl " min long epoch" ]])) ].

(** Lines 152-155. *)
Definition cell_sort_interval : cell :=
  [ (152, SAssign (TName "sort_interval") (ESub $"interval_list" (EInt 0)));
    (153, SAssign (TName "sort_interval_name")
            (EBin BAdd $"interval_list_name" '"_first180"));
    (154, SAssign (TName "sort_interval")
            (meth $"np" "copy" [ESub $"interval_list" (EInt 0)]));
    (155, SAssign (TSub $"sort_interval" (EInt 1))
            (EBin BAdd (ESub $"sort_interval" (EInt 0)) (EInt 180))) ].

(** Lines 163-165. *)
Definition cell_sort_interval_insert : cell :=
  [ (163, SExpr (ECall (EAttr $"SortInterval" "insert1")
                       [EDict [('"nwb_file_name", $"nwb_file_name");
                               ('"sort_interval_name", $"sort_interval_name");
                               ('"sort_interval", $"sort_interval")]]
                       skip_dup)) ].

(** Line 173. *)
Definition cell_sort_interval_view : cell :=
  [ (173, SExpr ($"SortInterval"
                   &' EDict [('"nwb_file_name", $"nwb_file_name");
                             ('"sort_interval_name", $"sort_interval_name")])) ].

(** Lines 181-183. *)
Definition cell_sort_interval_fetch : cell :=
  [ (181, SAssign (TName "fetched_sort_interval")
            (meth ($"SortInterval"
                     &' EDict [('"nwb_file_name", $"nwb_file_name");
                               ('"sort_interval_name", $"sort_interval_name")])
                  "fetch1" ['"sort_interval"]));
    (183, SExpr (call $"print"
            [EFmt [ inl "The sort interval goes from ";
                    inr (ESub $"fetched_sort_interval" (EInt 0), "");
                    inl " to ";
                    inr (ESub $"fetched_sort_interval" (EInt 1), "");
                    inl ", which is ";
                    inr (EBin BSub (ESub $"fetched_sort_interval" (EInt 1))
                                   (ESub $"fetched_sort_interval" (EInt 0)), "");
                    inl " seconds. COOL!" ]])) ].

(** Line 192. *)
Definition cell_filter_view : cell :=
  [ (192, SExpr (call $"SpikeSortingFilterParameters" [])) ].

(** Lines 200-203. *)
Definition cell_filter_default : cell :=
  [ (200, SExpr (meth (call $"SpikeSortingFilterParameters" []) "insert_default" []));
    (201, SAssign (TName "filter_param_dict")
            (meth (call $"SpikeSortingFilterParameters" []
                     &' EDict [('"filter_parameter_set_name", '"default")])
                  "fetch1" ['"filter_parameter_dict"]));
    (203, SExpr (call $"print" [$"filter_param_dict"])) ].

(** Lines 211-213. *)
Definition cell_filter_insert : cell :=
  [ (211, SAssign (TSub $"filter_param_dict" '"frequency_min") (EInt 600));
    (212, SExpr (ECall (EAttr (call $"SpikeSortingFilterParameters" []) "insert1")
                       [EDict [('"filter_parameter_set_name",
                                '"franklab_default_hippocampus");
                               ('"filter_parameter_dict", $"filter_param_dict")]]
                       skip_dup)) ].

(** Line 222. *)
Definition cell_artifact_default : cell :=
  [ (222, SExpr (meth (call $"SpikeSortingArtifactDetectionParameters" [])
                      "insert_default" [])) ].

(** Lines 231-240. *)
Definition cell_ssr_key : cell :=
  [ (231, SAssign (TName "key") (call $"dict" []));
    (232, SAssign (TSub $"key" '"nwb_file_name") $"nwb_file_name");
    (233, SAssign (TSub $"key" '"sort_group_id") (EInt 10));
    (234, SAssign (TSub $"key" '"sort_interval_name") '"02_r1_first180");
    (235, SAssign (TSub $"key" '"filter_parameter_set_name")
            '"franklab_default_hippocampus");
    (236, SAssign (TSub $"key" '"artifact_parameter_name") '"none");
    (237, SAssign (TSub $"key" '"interval_list_name") '"02_r1");
    (238, SAssign (TSub $"key" '"team_name") '"LorenLab");
    (240, SAssign (TName "ssr_key") $"key") ].

(** Lines 249-250. *)
Definition cell_recording_selection : cell :=
  [ (249, SExpr (ECall (EAttr $"SpikeSortingRecordingSelection" "insert1")
                       [$"ssr_key"] skip_dup));
    (250, SExpr (call $"SpikeSortingRecordingSelection" [] &' $"ssr_key")) ].

(** Line 259. *)
Definition cell_recording_populate : cell :=
  [ (259, SExpr (meth $"SpikeSortingRecording" "populate"
                   [EList [meth ($"SpikeSortingRecordingSelection" &' $"ssr_key")
                                "proj" []]])) ].

(** Line 267. *)
Definition cell_recording_view : cell :=
  [ (267, SExpr (call $"SpikeSortingRecording" [] &' $"ssr_key")) ].

(** Line 276. *)
Definition cell_workspace_populate : cell :=
  [ (276, SExpr (meth $"SpikeSortingWorkspace" "populate" [])) ].

(** Line 282. *)
Definition cell_workspace_view : cell :=
  [ (282, SExpr (call $"SpikeSortingWorkspace" [] &' $"ssr_key")) ].

(** Lines 295-296. *)
Definition cell_sorter_defaults : cell :=
  [ (295, SExpr (meth (call $"SpikeSorter" []) "insert_from_spikeinterface" []));
    (296, SExpr (meth (call $"SpikeSorterParameters" [])
                      "insert_from_spikeinterface" [])) ].

(** Lines 303-306. *)
Definition cell_ms4_default : cell :=
  [ (303, SAssign (TName "sorter_name") '"mountainsort4");
    (304, SAssign (TName "ms4_default_params")
            (meth ($"SpikeSorterParameters"
                     &' EDict [('"sorter_name", $"sorter_name");
                               ('"spikesorter_parameter_set_name", '"default")])
                  "fetch1" []));
    (306, SExpr (call $"print" [$"ms4_default_params"])) ].

(** Lines 314-332. *)
Definition cell_param_dict : cell :=
  [ (314, SAssign (TName "param_dict")
            (ESub $"ms4_default_params" '"parameter_dict"));
    (316, SAssign (TSub $"param_dict" '"detect_sign") (EInt (-1)));
    (318, SAssign (TSub $"param_dict" '"adjacency_radius") (EInt 100));
    (319, SAssign (TSub $"param_dict" '"curation") (EBool false));
    (321, SAssign (TSub $"param_dict" '"filter") (EBool false));
    (322, SAssign (TSub $"param_dict" '"freq_min") (EInt 0));
    (323, SAssign (TSub $"param_dict" '"freq_max") (EInt 0));
    (325, SAssign (TSub $"param_dict" '"whiten") (EBool false));
    (327, SAssign (TSub $"param_dict" '"num_workers") (EInt 4));
    (328, SAssign (TSub $"param_dict" '"verbose") (EBool true));
    (330, SAssign (TSub $"param_dict" '"clip_size")
            (meth $"np" "int"
               [EBin BMul (EFloat 0x1.5ca6ca03c4b0ap-10%float)
                  (meth ($"Raw" &' EDict [('"nwb_file_name", $"nwb_file_name")])
                        "fetch1" ['"sampling_rate"])]));
    (331, SAssign (TSub $"param_dict" '"noise_overlap_threshold") (EInt 0));
    (332, SExpr $"param_dict") ].

(** Line 341. *)
Definition cell_parameter_set_name : cell :=
  [ (341, SAssign (TName "parameter_set_name") '"franklab_hippocampus_tutorial") ].

(** Lines 349-354. *)
Definition cell_sorter_params_insert : cell :=
  [ (349, SExpr (ECall (EAttr $"SpikeSorterParameters" "insert1")
                       [EDict [('"sorter_name", $"sorter_name");
                               ('"spikesorter_parameter_set_name",
                                $"parameter_set_name");
                               ('"parameter_dict", $"param_dict")]]
                       skip_dup));
    (353, SAssign (TName "p")
            (meth ($"SpikeSorterParameters"
                     &' EDict [('"sorter_name", $"sorter_name");
                               ('"spikesorter_parameter_set_name",
                                $"parameter_set_name")])
                  "fetch1" []));
    (354, SExpr $"p") ].

(** Lines 364-369. *)
Definition cell_ss_key : cell :=
  [ (364, SAssign (TName "key")
            (meth ($"SpikeSortingWorkspace" &' $"ssr_key") "fetch1" ['"KEY"]));
    (365, SAssign (TSub $"key" '"sorter_name") $"sorter_name");
    (366, SAssign (TSub $"key" '"spikesorter_parameter_set_name")
            $"parameter_set_name");
    (367, SAssign (TName "ss_key") $"key");
    (368, SExpr (ECall (EAttr $"SpikeSortingSelection" "insert1")
                       [$"ss_key"] skip_dup));
    (369, SExpr ($"SpikeSortingSelection" &' $"ss_key")) ].

(** Line 378. *)
Definition cell_sorting_populate : cell :=
  [ (378, SExpr (meth $"SpikeSorting" "populate"
                   [EList [meth ($"SpikeSortingSelection" &' $"ss_key")
                                "proj" []]])) ].

(** Line 386. *)
Definition cell_sorting_view : cell :=
  [ (386, SExpr (call $"SpikeSorting" [] &' $"ss_key")) ].

(** Line 395. *)
Definition cell_precalculate : cell :=
  [ (395, SExpr (meth (call $"SpikeSortingWorkspace" []) "precalculate"
                      [$"ssr_key"])) ].

(** Lines 403-412. *)
Definition cell_figurl : cell :=
  [ (403, SImport "sortingview" "sv");
    (404, SAssign (TName "workspace")
            (meth $"sv" "load_workspace"
               [meth (call $"SpikeSortingWorkspace" [] &' $"ssr_key")
                     "fetch1" ['"workspace_uri"]]));
    (405, SAssign (TName "sorting_id")
            (meth (call $"SortingID" [] &' $"ssr_key") "fetch1" ['"sorting_id"]));
    (406, SAssign (TName "recording_id")
            (ESub (EAttr $"workspace" "recording_ids") (EInt 0)));
    (407, SAssign (TName "url")
            (ECall (EAttr $"workspace" "experimental_spikesortingview") []
               [("recording_id", $"recording_id");
                ("sorting_id", $"sorting_id");
                ("label", EAttr $"workspace" "label");
                ("include_curation", EBool true)]));
    (409, SAssign (TName "member_emails")
            (meth (meth (call $"LabMember" []) "LabMemberInfo" [])
                  "fetch" ['"lab_member_name"; '"google_user_name"]));
    (410, SAssign (TName "member_dict")
            (EListComp $"email" ["name"; "email"]
               (call $"zip" [ESub $"member_emails" (EInt 0);
                             ESub $"member_emails" (EInt 1)])
               (Some (EIn $"name" $"lorenlab_team_members"))));
    (411, SExpr (ECall (EAttr $"workspace" "set_sorting_curation_authorized_users") []
               [("sorting_id", $"sorting_id"); ("user_ids", $"member_dict")]));
    (412, SExpr (call $"print" [EFmt [inr ($"url", "")]])) ].

(** The cells in the order of the notebook. *)
Definition notebook : list cell :=
  [ cell_imports; cell_identity; cell_team; cell_exercise; cell_nwb_file;
    cell_sort_group; cell_sort_group_view; cell_interval_list_view;
    cell_interval_list; cell_sort_interval; cell_sort_interval_insert;
    cell_sort_interval_view; cell_sort_interval_fetch; cell_filter_view;
    cell_filter_default; cell_filter_insert; cell_artifact_default;
    cell_ssr_key; cell_recording_selection; cell_recording_populate;
    cell_recording_view; cell_workspace_populate; cell_workspace_view;
    cell_sorter_defaults; cell_ms4_default; cell_param_dict;
    cell_parameter_set_name; cell_sorter_params_insert; cell_ss_key;
    cell_sorting_populate; cell_sorting_view; cell_precalculate; cell_figurl ].

(** The cells a reader runs through: all of them but the exercise, which is
    left with its blanks. *)
Definition tutorial : list cell :=
  [ cell_imports; cell_identity; cell_team; cell_nwb_file;
    cell_sort_group; cell_sort_group_view; cell_interval_list_view;
    cell_interval_list; cell_sort_interval; cell_sort_interval_insert;
    cell_sort_interval_view; cell_sort_interval_fetch; cell_filter_view;
    cell_filter_default; cell_filter_insert; cell_artifact_default;
    cell_ssr_key; cell_recording_selection; cell_recording_populate;
    cell_recording_view; cell_workspace_populate; cell_workspace_view;
    cell_sorter_defaults; cell_ms4_default; cell_param_dict;
    cell_parameter_set_name; cell_sorter_params_insert; cell_ss_key;
    cell_sorting_populate; cell_sorting_view; cell_precalculate; cell_figurl ].


Definition cells_before_interval : list cell :=
  [ cell_imports; cell_identity; cell_team; cell_nwb_file;
    cell_sort_group; cell_sort_group_view; cell_interval_list_view ].

Definition cells_sort_interval : list cell :=
  [ cell_sort_interval; cell_sort_interval_insert;
    cell_sort_interval_view; cell_sort_interval_fetch ].

Definition cells_after_sort_interval : list cell :=
  [ cell_filter_view;
    cell_filter_default; cell_filter_insert; cell_artifact_default;
    cell_ssr_key; cell_recording_selection; cell_recording_populate;
    cell_recording_view; cell_workspace_populate; cell_workspace_view;
    cell_sorter_defaults; cell_ms4_default; cell_param_dict;
    cell_parameter_set_name; cell_sorter_params_insert; cell_ss_key;
    cell_sorting_populate; cell_sorting_view; cell_precalculate; cell_figurl ].

End Syntax.

(* ===================================================================== *)
(** ** What the notebook is made of *)

Module Census.
Import Syntax.

(** An expression with everything nested in it. *)
Fixpoint subexprs (e : expr) {struct e} : list expr :=
  e ::
  match e with
  | EAttr r _ => subexprs r
  | ECall f args kwargs =>
      subexprs f ++ flat_map subexprs args
        ++ flat_map (fun kv => match kv with (_, v) => subexprs v end) kwargs
  | ESub c i => subexprs c ++ subexprs i
  | EBin _ l r => subexprs l ++ subexprs r
  | EIn l r => subexprs l ++ subexprs r
  | EDict items =>
      flat_map (fun kv => match kv with (k, v) => subexprs k ++ subexprs v end) items
  | EList items => flat_map subexprs items
  | EFmt parts =>
      flat_map (fun p => match p with
                         | inl _ => []
                         | inr (x, _) => subexprs x
                         end) parts
  | EListComp elt _ iter cond =>
      subexprs elt ++ subexprs iter
        ++ match cond with Some c => subexprs c | None => [] end
  | _ => []
  end.

(** A statement with the statements nested in it. *)
Fixpoint substmts (s : stmt) {struct s} : list stmt :=
  s ::
  match s with
  | SIf _ body orelse => flat_map substmts body ++ flat_map substmts orelse
  | SFor _ _ body => flat_map substmts body
  | STry body handler => flat_map substmts body ++ flat_map substmts handler
  | _ => []
  end.

(** The expressions a statement holds itself. *)
Definition own_exprs (s : stmt) : list expr :=
  match s with
  | SAssign (TName _) e => [e]
  | SAssign (TSub c i) e => [e; c; i]
  | SExpr e => [e]
  | SIf c _ _ => [c]
  | SFor _ iter _ => [iter]
  | _ => []
  end.

(** Every expression of a statement, nested statements included. *)
Definition exprs_of (s : stmt) : list expr :=
  flat_map subexprs (flat_map own_exprs (substmts s)).

(** The top-level statements of the notebook, with their lines. *)
Definition statements : list (nat * stmt) := concat notebook.

Definition lines_where (p : stmt -> bool) : list nat :=
  map fst (filter (fun ls => p (snd ls)) statements).

(** *** Shapes of statements *)

Inductive shape :=
| Import | Assignment | Call | Display | Branch | Loop | Handler.

Definition shape_of (s : stmt) : shape :=
  match s with
  | SImport _ _ | SImportFrom _ _ => Import
  | SAssign _ _ => Assignment
  | SExpr (ECall _ _ _) => Call
  | SExpr _ => Display
  | SIf _ _ _ => Branch
  | SFor _ _ _ => Loop
  | STry _ _ => Handler
  end.

Definition shape_eqb (a b : shape) : bool :=
  match a, b with
  | Import, Import | Assignment, Assignment | Call, Call | Display, Display
  | Branch, Branch | Loop, Loop | Handler, Handler => true
  | _, _ => false
  end.

Definition has_shape (k : shape) (s : stmt) : bool := shape_eqb (shape_of s) k.

(** A comprehension with an [if] clause filters by the data. *)
Definition is_filter (e : expr) : bool :=
  match e with
  | EListComp _ _ _ (Some _) => true
  | _ => false
  end.

Definition filters (s : stmt) : bool := existsb is_filter (exprs_of s).



(** Nothing in the statement, however deep, loops or handles an exception. *)
Definition no_loop_no_handler (s : stmt) : bool :=
  forallb (fun s' => match shape_of s' with
                     | Loop | Handler => false
                     | _ => true
                     end) (substmts s).

Definition handler_free (s : stmt) : bool :=
  forallb (fun s' => negb (has_shape Handler s')) (substmts s).

(** *** What each statement is made of *)

Definition is_constant (e : expr) : bool :=
  match e with
  | EStr _ | EInt _ | EFloat _ | EBool _ => true
  | _ => false
  end.

(** Glue: names and literals, attributes, entries taken at a literal index,
    restrictions of a table by a key ([&]), displays and f-strings of glue, and
    calls whose callee and arguments are glue.  Arithmetic, membership tests and
    comprehensions are not. *)
Fixpoint glue (e : expr) {struct e} : bool :=
  match e with
  | EName _ | EStr _ | EInt _ | EFloat _ | EBool _ => true
  | EAttr r _ => glue r
  | ECall f args kwargs =>
      glue f && forallb glue args && forallb (fun kv => glue (snd kv)) kwargs
  | ESub c i => glue c && is_constant i
  | EBin BAnd l r => glue l && glue r
  | EBin _ _ _ => false
  | EIn _ _ => false
  | EDict items => forallb (fun kv => glue (fst kv) && glue (snd kv)) items
  | EList items => forallb glue items
  | EFmt parts => forallb (fun p => match p with
                                    | inl _ => true
                                    | inr (x, _) => glue x
                                    end) parts
  | EListComp _ _ _ _ => false
  end.

(** The kinds of statements: an import; the assignment of a literal, to a name
    or to an entry of a dict; the assignment of a name or of a display (a key,
    or an entry of one); the assignment of an entry of fetched data; a call,
    as a statement or assigned to a name; a displayed expression; and what
    holds logic of its own. *)
Inductive kind :=
| KImport | KConstant | KKey | KEntry | KCall | KDisplay | KLocal.

Definition target_ok (t : target) : bool :=
  match t with
  | TName _ => true
  | TSub c i => glue c && is_constant i
  end.

Definition kind_of (s : stmt) : kind :=
  match s with
  | SImport _ _ | SImportFrom _ _ => KImport
  | SAssign t e =>
      if target_ok t && glue e then
        match e with
        | EStr _ | EInt _ | EFloat _ | EBool _ => KConstant
        | EName _ | EDict _ | EList _ => KKey
        | ESub _ _ => KEntry
        | ECall _ _ _ => KCall
        | _ => KLocal
        end
      else KLocal
  | SExpr e =>
      if glue e then match e with ECall _ _ _ => KCall | _ => KDisplay end
      else KLocal
  | SIf _ _ _ | SFor _ _ _ | STry _ _ => KLocal
  end.

Definition kind_eqb (a b : kind) : bool :=
  match a, b with
  | KImport, KImport | KConstant, KConstant | KKey, KKey | KEntry, KEntry
  | KCall, KCall | KDisplay, KDisplay | KLocal, KLocal => true
  | _, _ => false
  end.

Definition has_kind (k : kind) (s : stmt) : bool := kind_eqb (kind_of s) k.

(** A constant or key assignment, or a direct call: the glue the notebook is
    said to be made of; imports, displayed expressions and entries taken from
    fetched data are counted with it. *)
Definition is_glue (s : stmt) : bool := negb (has_kind KLocal s).

(** Where a call goes: the name its callee starts from. *)
Fixpoint root (e : expr) {struct e} : option string :=
  match e with
  | EName x => Some x
  | EAttr r _ => root r
  | ECall f _ _ => root f
  | ESub c _ => root c
  | EBin BAnd l _ => root l
  | _ => None
  end.

Definition call_of (s : stmt) : option expr :=
  match s with
  | SAssign _ (ECall f a k) => Some (ECall f a k)
  | SExpr (ECall f a k) => Some (ECall f a k)
  | _ => None
  end.

Fixpoint dedup (l : list string) : list string :=
  match l with
  | [] => []
  | x :: t => if existsb (String.eqb x) t then dedup t else x :: dedup t
  end.

(** The names the notebook's call statements start from. *)
Definition call_roots : list string :=
  dedup (flat_map (fun ls => match call_of (snd ls) with
                             | Some e => match root e with
                                         | Some x => [x]
                                         | None => []
                                         end
                             | None => []
                             end)
                  (filter (fun ls => has_kind KCall (snd ls)) statements)).

(** The names bound by the imports: modules by their alias, tables by name. *)
Definition imported_names : list string :=
  flat_map (fun ls => match snd ls with
                      | SImport _ a => [a]
                      | SImportFrom _ names => names
                      | _ => []
                      end) statements.

(** The names bound by assigning the result of a call. *)
Definition call_results : list string :=
  flat_map (fun ls => match snd ls with
                      | SAssign (TName x) (ECall _ _ _) => [x]
                      | _ => []
                      end) statements.

(** Iteration: a [for] statement, or a comprehension in an expression. *)
Definition is_comprehension (e : expr) : bool :=
  match e with
  | EListComp _ _ _ _ => true
  | _ => false
  end.

Definition iterates (s : stmt) : bool :=
  existsb (has_shape Loop) (substmts s) || existsb is_comprehension (exprs_of s).

Definition is_membership (e : expr) : bool :=
  match e with
  | EIn _ _ => true
  | _ => false
  end.

(** Arithmetic written in the notebook. *)
Definition is_arith (e : expr) : bool :=
  match e with
  | EBin BAdd _ _ | EBin BSub _ _ | EBin BMul _ _ | EBin BDiv _ _ => true
  | _ => false
  end.

(** *** Calls *)

(** The calls [r.m(...)] of a statement: receiver, arguments, keywords. *)
Definition method_calls (m : string) (s : stmt)
  : list (expr * list expr * list (string * expr)) :=
  flat_map (fun e => match e with
                     | ECall (EAttr r m') args kw =>
                         if String.eqb m m' then [(r, args, kw)] else []
                     | _ => []
                     end) (exprs_of s).

Definition calls (m : string) : list (nat * (expr * list expr * list (string * expr))) :=
  flat_map (fun ls => map (pair (fst ls)) (method_calls m (snd ls))) statements.

Definition passes_skip_duplicates (c : expr * list expr * list (string * expr)) : bool :=
  match c with
  | (_, _, kw) =>
      existsb (fun kv => match kv with
                         | (k, EBool true) => String.eqb k "skip_duplicates"
                         | _ => false
                         end) kw
  end.

(** The statements that call [insert1], and the one form they all have. *)
Definition insert1_statements : list (nat * stmt) :=
  filter (fun ls => negb (Nat.eqb (length (method_calls "insert1" (snd ls))) 0))
         statements.

Definition is_skipping_insert (s : stmt) : bool :=
  match s with
  | SExpr (ECall (EAttr _ m) [_] [(k, EBool true)]) =>
      String.eqb m "insert1" && String.eqb k "skip_duplicates"
  | _ => false
  end.

(** How the row of an [insert1] is written. *)
Inductive row_form :=
| DictDisplay (keys : list string)
| ListDisplay (n : nat)
| Named (x : string)
| OtherRow.

Fixpoint literal_keys (items : list (expr * expr)) : option (list string) :=
  match items with
  | [] => Some []
  | (EStr k, _) :: t => option_map (cons k) (literal_keys t)
  | _ => None
  end.

Definition row_form_of (args : list expr) : row_form :=
  match args with
  | [EDict items] =>
      match literal_keys items with
      | Some ks => DictDisplay ks
      | None => OtherRow
      end
  | [EList items] => ListDisplay (length items)
  | [EName x] => Named x
  | _ => OtherRow
  end.

Definition insert1_rows : list (nat * row_form) :=
  map (fun c => (fst c, row_form_of (snd (fst (snd c))))) (calls "insert1").





(** The modules the notebook imports. *)
Definition imported : list string :=
  flat_map (fun ls => match snd ls with
                      | SImport m _ => [m]
                      | SImportFrom m _ => [m]
                      | _ => []
                      end) statements.

End Census.

(* ===================================================================== *)
(** ** Values, the object heap and stored data *)

Module Store.

(** Data as it is stored in a table or handed to an external call: a tree,
    with no sharing.  [DQuery] is a table expression (table name, the
    restrictions applied with [&], and whether [proj()] was taken); [DObj] is a
    handle on an object owned by an external library; [DName] is a builtin
    passed as an argument. *)
Inductive dval :=
| DNone
| DBool (b : bool)
| DInt (z : Z)
| DFloat (f : float)
| DStr (s : string)
| DArr (xs : list dval)
| DList (xs : list dval)
| DDict (kvs : list (string * dval))
| DQuery (table : string) (restr : list dval) (proj : bool)
| DObj (cls : string) (payload : dval)
| DName (x : string).

(** A location is a block and an offset in it.  Every allocation (a display,
    [dict()], a value unpacked from the database, a copy) takes a fresh block;
    the objects of one unpacked value lie in one block, the outermost first. *)
Definition loc := (nat * nat)%type.

(** Python values.  Dicts, lists and ndarrays are references into the heap;
    a row of a 2-D ndarray is a reference to the row's storage, so that
    [a[0]] is a view of [a]. *)
Inductive value :=
| VNone
| VBool (b : bool)
| VInt (z : Z)
| VFloat (f : float)
| VStr (s : string)
| VRef (l : loc)
| VTuple (xs : list value)
| VQuery (table : string) (restr : list dval) (proj : bool)
| VObj (cls : string) (payload : dval)
| VModule (name : string)
| VBuiltin (name : string).

(** Heap objects.  Dict keys are strings (the only keys the notebook uses);
    a dict is an association list in insertion order. *)
Inductive obj :=
| ODict (kvs : list (string * value))
| OList (xs : list value)
| OArr (xs : list value).

Definition block := list obj.
Definition heap := list block.

Fixpoint list_set {A} (i : nat) (x : A) (l : list A) : list A :=
  match l, i with
  | [], _ => []
  | _ :: t, O => x :: t
  | y :: t, S j => y :: list_set j x t
  end.

Definition heap_get (h : heap) (l : loc) : option obj :=
  match nth_error h (fst l) with
  | Some b => nth_error b (snd l)
  | None => None
  end.

Definition heap_set (h : heap) (l : loc) (o : obj) : heap :=
  match nth_error h (fst l) with
  | Some b => list_set (fst l) (list_set (snd l) o b) h
  | None => h
  end.

Definition alloc (o : obj) (h : heap) : loc * heap :=
  ((length h, O), h ++ [[o]]).

Definition heap_size (h : heap) : nat :=
  fold_right (fun b n => length b + n) O h.

(** *** Association lists *)

Fixpoint assoc {A} (k : string) (l : list (string * A)) : option A :=
  match l with
  | [] => None
  | (k', v) :: t => if String.eqb k k' then Some v else assoc k t
  end.

(** [d[k] = v]: overwrite in place, or append a new key. *)
Fixpoint assoc_set {A} (k : string) (v : A) (l : list (string * A))
  : list (string * A) :=
  match l with
  | [] => [(k, v)]
  | (k', v') :: t =>
      if String.eqb k k' then (k', v) :: t else (k', v') :: assoc_set k v t
  end.

Fixpoint map_opt {A B} (f : A -> option B) (l : list A) : option (list B) :=
  match l with
  | [] => Some []
  | x :: t =>
      match f x with
      | Some y => match map_opt f t with Some ys => Some (y :: ys) | None => None end
      | None => None
      end
  end.

(** *** Unpacking stored data into objects

    [thaw_at r o d] lays the objects of [d] out in block [r] from offset [o]
    on: the object of [d] itself first, those of its components after it. *)
Fixpoint thaw_at (r o : nat) (d : dval) {struct d} : value * list obj :=
  let thaw_seq :=
    fix go (o : nat) (ds : list dval) {struct ds} : list value * list obj :=
      match ds with
      | [] => ([], [])
      | d :: t =>
          let p1 := thaw_at r o d in
          let p2 := go (o + length (snd p1))%nat t in
          (fst p1 :: fst p2, snd p1 ++ snd p2)
      end in
  let thaw_items :=
    fix go (o : nat) (kvs : list (string * dval)) {struct kvs}
      : list (string * value) * list obj :=
      match kvs with
      | [] => ([], [])
      | (k, d) :: t =>
          let p1 := thaw_at r o d in
          let p2 := go (o + length (snd p1))%nat t in
          ((k, fst p1) :: fst p2, snd p1 ++ snd p2)
      end in
  match d with
  | DNone => (VNone, [])
  | DBool b => (VBool b, [])
  | DInt z => (VInt z, [])
  | DFloat f => (VFloat f, [])
  | DStr s => (VStr s, [])
  | DArr xs => let p := thaw_seq (S o) xs in (VRef (r, o), OArr (fst p) :: snd p)
  | DList xs => let p := thaw_seq (S o) xs in (VRef (r, o), OList (fst p) :: snd p)
  | DDict kvs =>
      let p := thaw_items (S o) kvs in (VRef (r, o), ODict (fst p) :: snd p)
  | DQuery t restr p => (VQuery t restr p, [])
  | DObj c p => (VObj c p, [])
  | DName x => (VBuiltin x, [])
  end.

(** The two inner walks of [thaw_at], by name. *)
Definition thaw_seq (r : nat) : nat -> list dval -> list value * list obj :=
  fix go (o : nat) (ds : list dval) {struct ds} : list value * list obj :=
    match ds with
    | [] => ([], [])
    | d :: t =>
        let p1 := thaw_at r o d in
        let p2 := go (o + length (snd p1))%nat t in
        (fst p1 :: fst p2, snd p1 ++ snd p2)
    end.

Definition thaw_items (r : nat)
  : nat -> list (string * dval) -> list (string * value) * list obj :=
  fix go (o : nat) (kvs : list (string * dval)) {struct kvs}
    : list (string * value) * list obj :=
    match kvs with
    | [] => ([], [])
    | (k, d) :: t =>
        let p1 := thaw_at r o d in
        let p2 := go (o + length (snd p1))%nat t in
        ((k, fst p1) :: fst p2, snd p1 ++ snd p2)
    end.

Definition thaw (d : dval) (h : heap) : value * heap :=
  let p := thaw_at (length h) O d in (fst p, h ++ [snd p]).

(** *** Packing a value for storage

    The walk follows references, so it is bounded: by [freeze_fuel], which
    exceeds the length of every path through distinct objects.  A cyclic or
    dangling structure gives [None]. *)
Fixpoint freeze (n : nat) (h : heap) (v : value) : option dval :=
  match n with
  | O => None
  | S n' =>
      match v with
      | VNone => Some DNone
      | VBool b => Some (DBool b)
      | VInt z => Some (DInt z)
      | VFloat f => Some (DFloat f)
      | VStr s => Some (DStr s)
      | VRef l =>
          match heap_get h l with
          | Some (OArr vs) => option_map DArr (map_opt (freeze n' h) vs)
          | Some (OList vs) => option_map DList (map_opt (freeze n' h) vs)
          | Some (ODict kvs) =>
              option_map (fun ds => DDict (combine (map fst kvs) ds))
                         (map_opt (freeze n' h) (map snd kvs))
          | None => None
          end
      | VTuple vs => option_map DList (map_opt (freeze n' h) vs)
      | VQuery t restr p => Some (DQuery t restr p)
      | VObj c p => Some (DObj c p)
      | VModule m => Some (DName m)
      | VBuiltin x => Some (DName x)
      end
  end.

Definition freeze_fuel (h : heap) : nat := 3 + heap_size h.

Definition pack (h : heap) (v : value) : option dval :=
  freeze (freeze_fuel h) h v.

(** The entries of a dict, packed. *)
Definition freeze_items (n : nat) (h : heap) (kvs : list (string * value))
  : option (list (string * dval)) :=
  option_map (combine (map fst kvs)) (map_opt (freeze n h) (map snd kvs)).

(** The heap [g] holds the objects [os] in block [r] from offset [o] on. *)
Definition holds (g : heap) (r o : nat) (os : list obj) : Prop :=
  forall i x, nth_error os i = Some x -> heap_get g (r, o + i) = Some x.

(** *** Numbers *)

Definition float_of_Z (z : Z) : float :=
  match z with
  | Z0 => PrimFloat.zero
  | Zpos p => SF2Prim (binary_round prec emax false p 0)
  | Zneg p => SF2Prim (binary_round prec emax true p 0)
  end.

(** [int(x)] on a float: truncation towards zero; [None] on nan and infinity. *)
Definition Z_of_float (x : float) : option Z :=
  match Prim2SF x with
  | S754_zero _ => Some 0%Z
  | S754_finite s m e =>
      let a := if (0 <=? e)%Z then (Zpos m * 2 ^ e)%Z else (Zpos m / 2 ^ (- e))%Z in
      Some (if s then (- a)%Z else a)
  | _ => None
  end.

(** *** Equality of stored data ([==] on plain values) *)
Fixpoint dval_eqb (a b : dval) {struct a} : bool :=
  let list_eqb :=
    fix go (xs ys : list dval) {struct xs} : bool :=
      match xs, ys with
      | [], [] => true
      | x :: xs', y :: ys' => dval_eqb x y && go xs' ys'
      | _, _ => false
      end in
  let dict_eqb :=
    fix go (xs ys : list (string * dval)) {struct xs} : bool :=
      match xs, ys with
      | [], [] => true
      | (k, x) :: xs', (k', y) :: ys' => String.eqb k k' && dval_eqb x y && go xs' ys'
      | _, _ => false
      end in
  match a, b with
  | DNone, DNone => true
  | DBool x, DBool y => Bool.eqb x y
  | DInt x, DInt y => Z.eqb x y
  | DFloat x, DFloat y => PrimFloat.eqb x y
  | DInt x, DFloat y => PrimFloat.eqb (float_of_Z x) y
  | DFloat x, DInt y => PrimFloat.eqb x (float_of_Z y)
  | DStr x, DStr y => String.eqb x y
  | DArr xs, DArr ys => list_eqb xs ys
  | DList xs, DList ys => list_eqb xs ys
  | DDict xs, DDict ys => dict_eqb xs ys
  | DQuery t r p, DQuery t' r' p' => String.eqb t t' && list_eqb r r' && Bool.eqb p p'
  | DObj c p, DObj c' p' => String.eqb c c' && dval_eqb p p'
  | DName x, DName y => String.eqb x y
  | _, _ => false
  end.

End Store.

(* ===================================================================== *)
(** ** The relational framework the notebook calls into

    The tables live outside the repository.  What the notebook relies on is
    modelled here: a table is a list of rows, a row maps attribute names to
    stored data, a restriction [T & {...}] keeps the rows that agree with the
    dict on the attributes they have, and [insert1] enforces the heading and
    the primary key.  Referential constraints and everything a table computes
    ([populate], [insert_default], ...) stay with the framework: they are the
    [oracle] of the evaluator. *)

Module Framework.
Import Store.

Inductive error :=
| NameError (x : string)
| AttributeError (a : string)
| TypeError (what : string)
| KeyError (k : string)
| IndexError
| ValueError (what : string)
| ZeroDivisionError
| DataJointError (what : string)
| DuplicateError (table : string)
| ExternalError (what : dval).

Inductive result (A : Type) :=
| Ok (a : A)
| Raise (e : error).
Arguments Ok {A} a.
Arguments Raise {A} e.

Definition row := list (string * dval).
Definition table := list row.
Definition database := string -> table.

Definition db_set (t : string) (rows : table) (d : database) : database :=
  fun n => if String.eqb n t then rows else d n.

(** What the notebook does not define about a table: its attributes in order,
    its primary key, and its part tables. *)
Record schema := {
  heading : string -> list string;
  primary_key : string -> list string;
  part_tables : string -> list string
}.

Definition mem (x : string) (l : list string) : bool :=
  existsb (String.eqb x) l.

(** DataJoint wants the name of a table class in CamelCase: an attribute of a
    table that starts with a capital names a part table, any other a method. *)
Definition is_class_name (x : string) : bool :=
  match x with
  | String c _ =>
      existsb (Ascii.eqb c) (list_ascii_of_string "ABCDEFGHIJKLMNOPQRSTUVWXYZ")
  | EmptyString => false
  end.

(** A row satisfies a dict restriction when it agrees with it on every key
    that is one of its attributes; other keys are ignored. *)
Definition agrees (r : row) (kv : string * dval) : bool :=
  match assoc (fst kv) r with
  | Some v => dval_eqb (snd kv) v
  | None => true
  end.

Definition satisfies (r : row) (cond : dval) : bool :=
  match cond with
  | DDict kvs => forallb (agrees r) kvs
  | _ => true
  end.

Definition project (attrs : list string) (r : row) : option row :=
  map_opt (fun a => option_map (pair a) (assoc a r)) attrs.

Definition restrict (restr : list dval) (rows : table) : table :=
  filter (fun r => forallb (satisfies r) restr) rows.

Section WithSchema.
Variable sch : schema.

(** The rows a table expression denotes. *)
Definition query_rows (d : database) (t : string) (restr : list dval) (proj : bool)
  : option table :=
  let rs := restrict restr (d t) in
  if proj then map_opt (project (primary_key sch t)) rs else Some rs.

Definition attr_names (args : list dval) : option (list string) :=
  map_opt (fun a => match a with DStr s => Some s | _ => None end) args.

Definition column (rs : table) (a : string) : option dval :=
  option_map DArr (map_opt (assoc a) rs).

(** [q.fetch(a)] is the column [a]; [q.fetch(a, b, ...)] the list of the
    columns, all read from the same rows in the same order. *)
Definition fetch (d : database) (t : string) (restr : list dval) (proj : bool)
    (args : list dval) : result dval :=
  match query_rows d t restr proj, attr_names args with
  | Some rs, Some [] => Ok (DArr (map DDict rs))
  | Some rs, Some [a] =>
      match column rs a with
      | Some c => Ok c
      | None => Raise (DataJointError "unknown attribute")
      end
  | Some rs, Some attrs =>
      match map_opt (column rs) attrs with
      | Some cs => Ok (DList cs)
      | None => Raise (DataJointError "unknown attribute")
      end
  | _, _ => Raise (DataJointError "fetch")
  end.

(** [q.fetch1(...)] wants exactly one row: the row as a dict, its primary key
    for ["KEY"], or the named attribute. *)
Definition fetch1 (d : database) (t : string) (restr : list dval) (proj : bool)
    (args : list dval) : result dval :=
  match query_rows d t restr proj, attr_names args with
  | Some [r], Some [] => Ok (DDict r)
  | Some [r], Some [a] =>
      if String.eqb a "KEY" then
        match project (primary_key sch t) r with
        | Some k => Ok (DDict k)
        | None => Raise (DataJointError "primary key")
        end
      else
        match assoc a r with
        | Some v => Ok v
        | None => Raise (DataJointError "unknown attribute")
        end
  | Some [r], Some attrs =>
      match map_opt (fun a => assoc a r) attrs with
      | Some vs => Ok (DList vs)
      | None => Raise (DataJointError "unknown attribute")
      end
  | _, _ => Raise (DataJointError "fetch1 should only return one tuple")
  end.

(** The row an [insert1] argument stands for: a mapping whose fields are
    attributes of the table, or a sequence with one value per attribute. *)
Definition as_row (t : string) (arg : dval) : result row :=
  match arg with
  | DDict kvs =>
      if forallb (fun kv => mem (fst kv) (heading sch t)) kvs
      then Ok kvs else Raise (KeyError "not in the table heading")
  | DList vs | DArr vs =>
      if Nat.eqb (length vs) (length (heading sch t))
      then Ok (combine (heading sch t) vs)
      else Raise (DataJointError "incorrect number of attributes")
  | _ => Raise (DataJointError "row must be a mapping or a sequence")
  end.

Definition row_key (t : string) (r : row) : option row :=
  project (primary_key sch t) r.

Definition same_key (k : row) (k' : option row) : bool :=
  match k' with
  | Some k' => dval_eqb (DDict k) (DDict k')
  | None => false
  end.

Definition key_present (t : string) (k : row) (rows : table) : bool :=
  existsb (fun r => same_key k (row_key t r)) rows.

(** [T.insert1(row, skip_duplicates=skip)]. *)
Definition insert1 (d : database) (t : string) (arg : dval) (skip : bool)
  : result database :=
  match as_row t arg with
  | Raise e => Raise e
  | Ok r =>
      match row_key t r with
      | None => Raise (DataJointError "missing primary key attribute")
      | Some k =>
          if key_present t k (d t)
          then if skip then Ok d else Raise (DuplicateError t)
          else Ok (db_set t (d t ++ [r]) d)
      end
  end.

End WithSchema.

End Framework.

(* ===================================================================== *)
(** ** Evaluation *)

Module Interp.
Import Syntax Store Framework.

(** One interaction with the outside: the callee, the packed arguments (the
    receiver first, for a method) and keyword arguments, what came back, and
    the database as the call left it. *)
Record event := {
  ev_fn : string;
  ev_args : list dval;
  ev_kwargs : list (string * dval);
  ev_res : result dval;
  ev_db : database
}.

(** The state of the kernel: the global names, the heap, the database and the
    interactions so far (the latest first). *)
Record state := {
  env : list (string * value);
  heap : Store.heap;
  db : database;
  log : list event
}.

Definition M (A : Type) : Type := state -> state * result A.

Definition ret {A} (a : A) : M A := fun st => (st, Ok a).
Definition raise {A} (e : error) : M A := fun st => (st, Raise e).
Definition bind {A B} (m : M A) (k : A -> M B) : M B :=
  fun st => match m st with
            | (st1, Ok a) => k a st1
            | (st1, Raise e) => (st1, Raise e)
            end.

Notation "x <- m ;; k" := (bind m (fun x => k))
  (at level 61, m at next level, right associativity).
Notation "m ;;; k" := (bind m (fun _ => k))
  (at level 61, right associativity).

Definition lift_opt {A} (o : option A) (e : error) : M A :=
  match o with Some a => ret a | None => raise e end.

Definition lift_res {A} (r : result A) : M A :=
  match r with Ok a => ret a | Raise e => raise e end.

Fixpoint mapM {A B} (f : A -> M B) (l : list A) : M (list B) :=
  match l with
  | [] => ret []
  | x :: t => y <- f x ;; ys <- mapM f t ;; ret (y :: ys)
  end.

(** *** State access *)

Definition get_env : M (list (string * value)) := fun st => (st, Ok (env st)).
Definition set_env (e : list (string * value)) : M unit :=
  fun st => ({| env := e; heap := heap st; db := db st; log := log st |}, Ok tt).
Definition get_heap : M Store.heap := fun st => (st, Ok (heap st)).
Definition set_heap (h : Store.heap) : M unit :=
  fun st => ({| env := env st; heap := h; db := db st; log := log st |}, Ok tt).
Definition get_db : M database := fun st => (st, Ok (db st)).

Definition lookup_name (x : string) : M value :=
  e <- get_env ;; lift_opt (assoc x e) (NameError x).

Definition bind_name (x : string) (v : value) : M unit :=
  e <- get_env ;; set_env (assoc_set x v e).

Definition new_obj (o : obj) : M value :=
  h <- get_heap ;;
  set_heap (snd (alloc o h)) ;;; ret (VRef (fst (alloc o h))).

Definition deref (l : loc) : M obj :=
  h <- get_heap ;; lift_opt (heap_get h l) (ValueError "dangling reference").

Definition packM (v : value) : M dval :=
  h <- get_heap ;; lift_opt (pack h v) (ValueError "cannot pack").

Definition unpackM (d : dval) : M value :=
  h <- get_heap ;;
  set_heap (snd (thaw d h)) ;;; ret (fst (thaw d h)).

(** A call that went outside: it left the database [d], and answered [r],
    which comes back unpacked, or is raised. *)
Definition interact (d : database) (fn : string) (args : list dval)
    (kw : list (string * dval)) (r : result dval) : M value :=
  (fun st =>
     ({| env := env st; heap := heap st; db := d;
         log := {| ev_fn := fn; ev_args := args; ev_kwargs := kw;
                   ev_res := r; ev_db := d |} :: log st |}, Ok tt)) ;;;
  x <- lift_res r ;;
  unpackM x.

(** *** Primitive operations on values *)

Definition index (n : nat) (z : Z) : option nat :=
  let i := if (z <? 0)%Z then (z + Z.of_nat n)%Z else z in
  if ((0 <=? i) && (i <? Z.of_nat n))%Z then Some (Z.to_nat i) else None.

Definition seq_get (vs : list value) (z : Z) : M value :=
  match index (length vs) z with
  | Some i => lift_opt (nth_error vs i) IndexError
  | None => raise IndexError
  end.

(** [e[i]] *)
Definition subscript (c i : value) : M value :=
  match c, i with
  | VRef l, VInt z =>
      o <- deref l ;;
      match o with
      | OList vs | OArr vs => seq_get vs z
      | ODict _ => raise (KeyError "")
      end
  | VRef l, VStr k =>
      o <- deref l ;;
      match o with
      | ODict kvs => lift_opt (assoc k kvs) (KeyError k)
      | _ => raise (TypeError "indices must be integers")
      end
  | VTuple vs, VInt z => seq_get vs z
  | _, _ => raise (TypeError "not subscriptable")
  end.

(** [e[i] = v] *)
Definition store_subscript (c i v : value) : M unit :=
  match c, i with
  | VRef l, VInt z =>
      o <- deref l ;;
      h <- get_heap ;;
      match o with
      | OList vs =>
          match index (length vs) z with
          | Some n => set_heap (heap_set h l (OList (list_set n v vs)))
          | None => raise IndexError
          end
      | OArr vs =>
          match index (length vs) z with
          | Some n => set_heap (heap_set h l (OArr (list_set n v vs)))
          | None => raise IndexError
          end
      | ODict _ => raise (TypeError "dict keys are strings")
      end
  | VRef l, VStr k =>
      o <- deref l ;;
      h <- get_heap ;;
      match o with
      | ODict kvs => set_heap (heap_set h l (ODict (assoc_set k v kvs)))
      | _ => raise (TypeError "indices must be integers")
      end
  | _, _ => raise (TypeError "does not support item assignment")
  end.

Definition arith (op : binop) (a b : float) : M value :=
  match op with
  | BAdd => ret (VFloat (a + b))
  | BSub => ret (VFloat (a - b))
  | BMul => ret (VFloat (a * b))
  | BDiv => if PrimFloat.eqb b 0 then raise ZeroDivisionError
            else ret (VFloat (a / b))
  | BAnd => raise (TypeError "unsupported operand")
  end%float.

Definition arith_int (op : binop) (a b : Z) : M value :=
  match op with
  | BAdd => ret (VInt (a + b))
  | BSub => ret (VInt (a - b))
  | BMul => ret (VInt (a * b))
  | BDiv => arith BDiv (float_of_Z a) (float_of_Z b)
  | BAnd => ret (VInt (Z.land a b))
  end%Z.

(** Binary operators: [&] restricts a table expression by a dict (packed when
    the restriction is taken); [+ - * /] are arithmetic, an int meeting a float
    being converted; [+] also joins strings. *)
Definition binary (op : binop) (a b : value) : M value :=
  match op, a, b with
  | BAnd, VQuery t restr p, VRef l =>
      d <- packM (VRef l) ;;
      match d with
      | DDict _ => ret (VQuery t (restr ++ [d]) p)
      | _ => raise (TypeError "restriction")
      end
  | BAdd, VStr x, VStr y => ret (VStr (x ++ y))
  | _, VInt x, VInt y => arith_int op x y
  | _, VFloat x, VFloat y => arith op x y
  | _, VFloat x, VInt y => arith op x (float_of_Z y)
  | _, VInt x, VFloat y => arith op (float_of_Z x) y
  | _, _, _ => raise (TypeError "unsupported operand")
  end.

(** The items an iteration goes through. *)
Definition items_of (v : value) : M (list value) :=
  match v with
  | VRef l =>
      o <- deref l ;;
      match o with
      | OList vs | OArr vs => ret vs
      | ODict kvs => ret (map (fun kv => VStr (fst kv)) kvs)
      end
  | VTuple vs => ret vs
  | _ => raise (TypeError "not iterable")
  end.

(** [==]: equality of the packed values. *)
Definition py_eq (h : Store.heap) (a b : value) : bool :=
  match pack h a, pack h b with
  | Some x, Some y => dval_eqb x y
  | _, _ => false
  end.

Definition contains (c x : value) : M bool :=
  vs <- items_of c ;;
  h <- get_heap ;;
  ret (existsb (py_eq h x) vs).

Definition truthy (v : value) : M bool :=
  match v with
  | VNone => ret false
  | VBool b => ret b
  | VInt z => ret (negb (z =? 0)%Z)
  | VFloat f => ret (negb (PrimFloat.eqb f 0))
  | VStr s => ret (negb (String.eqb s ""))
  | VTuple vs => ret (negb (Nat.eqb (length vs) 0))
  | VRef l =>
      o <- deref l ;;
      match o with
      | OList vs => ret (negb (Nat.eqb (length vs) 0))
      | ODict kvs => ret (negb (Nat.eqb (length kvs) 0))
      | OArr _ => raise (ValueError "truth value of an array")
      end
  | _ => ret true
  end.

(** [zip(a, b, ...)]: the tuples of corresponding items, as long as the
    shortest argument. *)
Fixpoint zip_rows (cols : list (list value)) (n : nat) : list value :=
  match n with
  | O => []
  | S n' =>
      match map_opt (fun c => hd_error c) cols with
      | Some hs => VTuple hs :: zip_rows (map (@tl value) cols) n'
      | None => []
      end
  end.

Definition zip (cols : list (list value)) : value :=
  match cols with
  | [] => VTuple []
  | c :: _ => VTuple (zip_rows cols (length c))
  end.

(** Binding the targets of a [for]: one name takes the item, several names
    take the components of a tuple of that many. *)
Fixpoint bind_all (e : list (string * value)) (xs : list string) (vs : list value)
  : option (list (string * value)) :=
  match xs, vs with
  | [], [] => Some e
  | x :: xs', v :: vs' => bind_all ((x, v) :: e) xs' vs'
  | _, _ => None
  end.

Definition bind_targets (targets : list string) (item : value) : M unit :=
  e <- get_env ;;
  match targets with
  | [x] => set_env ((x, item) :: e)
  | _ =>
      vs <- items_of item ;;
      e' <- lift_opt (bind_all e targets vs) (ValueError "unpack") ;;
      set_env e'
  end.

(** The loop of a comprehension: [body] answers, for an item, the element to
    keep, if any. *)
Fixpoint comp_loop (body : value -> M (option value)) (items : list value)
  : M (list value) :=
  match items with
  | [] => ret []
  | x :: t =>
      r <- body x ;;
      rest <- comp_loop body t ;;
      ret (match r with Some v => v :: rest | None => rest end)
  end.

(** A comprehension has its own scope: the names it binds are dropped when it
    is done, also when it fails. *)
Definition scoped {A} (m : M A) : M A :=
  fun st =>
    let '(st1, r) := m st in
    ({| env := env st; heap := heap st1; db := db st1; log := log st1 |}, r).

Fixpoint for_loop (body : value -> M unit) (items : list value) : M unit :=
  match items with
  | [] => ret tt
  | x :: t => body x ;;; for_loop body t
  end.

(** [ndarray.tolist()]: nested arrays become nested lists. *)
Fixpoint to_list (d : dval) : dval :=
  match d with
  | DArr xs => DList (map to_list xs)
  | _ => d
  end.

Definition kwarg_bool (k : string) (kw : list (string * dval)) : bool :=
  match assoc k kw with
  | Some (DBool b) => b
  | _ => false
  end.

Section WithFramework.

(** The parts of the outside world that the notebook leaves unspecified: the
    schema of the tables, every call the framework, numpy or sortingview
    serves other than the ones modelled here, and how a value is rendered in a
    formatted string. *)
Variable sch : schema.
Variable oracle :
  string -> list dval -> list (string * dval) -> database -> database * result dval.
Variable format_value : dval -> string -> string.

(** A call served by the outside: it may change the database and may fail. *)
Definition external (fn : string) (args : list dval) (kw : list (string * dval))
  : M value :=
  d <- get_db ;;
  let '(d', r) := oracle fn args kw d in
  interact d' fn args kw r.

(** [recv.m(args, kw)] *)
Definition call_method (recv : value) (m : string) (args : list value)
    (kwargs : list (string * value)) : M value :=
  dargs <- mapM packM args ;;
  dkw <- mapM (fun kv => d <- packM (snd kv) ;; ret (fst kv, d)) kwargs ;;
  match recv with
  | VQuery t restr p =>
      let self := DQuery t restr p in
      if String.eqb m "fetch" then
        d <- get_db ;;
        interact d (t ++ "." ++ m) (self :: dargs) dkw (fetch sch d t restr p dargs)
      else if String.eqb m "fetch1" then
        d <- get_db ;;
        interact d (t ++ "." ++ m) (self :: dargs) dkw (fetch1 sch d t restr p dargs)
      else if String.eqb m "insert1" then
        match dargs with
        | [row] =>
            d <- get_db ;;
            match insert1 sch d t row (kwarg_bool "skip_duplicates" dkw) with
            | Ok d' => interact d' (t ++ "." ++ m) (self :: dargs) dkw (Ok DNone)
            | Raise e => interact d (t ++ "." ++ m) (self :: dargs) dkw (Raise e)
            end
        | _ => raise (TypeError "insert1 takes one row")
        end
      else if String.eqb m "proj" then ret (VQuery t restr true)
      else if is_class_name m then
        if mem m (part_tables sch t) then ret (VQuery (t ++ "." ++ m) [] false)
        else raise (AttributeError m)
      else external (t ++ "." ++ m) (self :: dargs) dkw
  | VModule md =>
      if String.eqb md "numpy" then
        if String.eqb m "copy" then
          match dargs with
          | [DArr xs] | [DList xs] => unpackM (DArr xs)
          | [d] => unpackM d
          | _ => raise (TypeError "copy takes one argument")
          end
        else if String.eqb m "int" then
          match dargs with
          | [DInt z] => ret (VInt z)
          | [DFloat f] => z <- lift_opt (Z_of_float f) (ValueError "cannot convert") ;;
                          ret (VInt z)
          | [DBool b] => ret (VInt (if b then 1 else 0))
          | _ => raise (TypeError "int")
          end
        else external ("numpy." ++ m) dargs dkw
      else if String.eqb md "warnings" then
        if String.eqb m "simplefilter" then ret VNone
        else raise (AttributeError m)
      else external (md ++ "." ++ m) dargs dkw
  | VObj c payload => external (c ++ "." ++ m) (DObj c payload :: dargs) dkw
  | VRef l =>
      if String.eqb m "tolist" then
        d <- packM (VRef l) ;; unpackM (to_list d)
      else raise (AttributeError m)
  | _ => raise (AttributeError m)
  end.

(** [f(args)] for a callee that is not a method. *)
Definition call_value (f : value) (args : list value) : M value :=
  match f with
  | VQuery t restr p =>
      match args with
      | [] => ret (VQuery t restr p)
      | _ => raise (TypeError "a table takes no argument")
      end
  | VBuiltin name =>
      if String.eqb name "print" then
        dargs <- mapM packM args ;;
        d <- get_db ;;
        interact d "print" dargs [] (Ok DNone)
      else if String.eqb name "dict" then
        match args with
        | [] => new_obj (ODict [])
        | _ => raise (TypeError "dict")
        end
      else if String.eqb name "zip" then
        cols <- mapM items_of args ;; ret (zip cols)
      else raise (TypeError "not callable")
  | _ => raise (TypeError "not callable")
  end.

(** [e.a] when it is not called. *)
Definition attribute (v : value) (a : string) : M value :=
  match v with
  | VQuery t _ _ =>
      if mem a (part_tables sch t) then ret (VQuery (t ++ "." ++ a) [] false)
      else raise (AttributeError a)
  | VObj c payload => external (c ++ "." ++ a) [DObj c payload] []
  | _ => raise (AttributeError a)
  end.

Definition dict_key (v : value) : M string :=
  match v with
  | VStr s => ret s
  | _ => raise (TypeError "dict keys are strings")
  end.

(** Expressions, evaluated left to right as Python does. *)
Fixpoint eval (e : expr) {struct e} : M value :=
  match e with
  | EName x => lookup_name x
  | EStr s => ret (VStr s)
  | EInt z => ret (VInt z)
  | EFloat f => ret (VFloat f)
  | EBool b => ret (VBool b)
  | EAttr r a => v <- eval r ;; attribute v a
  | ECall f args kwargs =>
      let eval_kw := mapM (fun kv => match kv with
                                     | (k, e) => v <- eval e ;; ret (k, v)
                                     end) kwargs in
      match f with
      | EAttr r m =>
          recv <- eval r ;;
          vs <- mapM eval args ;;
          kw <- eval_kw ;;
          call_method recv m vs kw
      | _ =>
          fv <- eval f ;;
          vs <- mapM eval args ;;
          call_value fv vs
      end
  | ESub c i => cv <- eval c ;; iv <- eval i ;; subscript cv iv
  | EBin op l r => a <- eval l ;; b <- eval r ;; binary op a b
  | EIn l r => x <- eval l ;; c <- eval r ;; b <- contains c x ;; ret (VBool b)
  | EDict items =>
      kvs <- mapM (fun kv => match kv with
                             | (k, e) =>
                                 kv' <- eval k ;; s <- dict_key kv' ;;
                                 v <- eval e ;; ret (s, v)
                             end) items ;;
      new_obj (ODict (fold_left (fun acc kv => assoc_set (fst kv) (snd kv) acc)
                                kvs []))
  | EList items => vs <- mapM eval items ;; new_obj (OList vs)
  | EFmt parts =>
      ss <- mapM (fun p => match p with
                           | inl s => ret s
                           | inr (e, spec) =>
                               v <- eval e ;; d <- packM v ;;
                               ret (format_value d spec)
                           end) parts ;;
      ret (VStr (String.concat "" ss))
  | EListComp elt targets iter cond =>
      it <- eval iter ;;
      items <- items_of it ;;
      vs <- scoped (comp_loop
                      (fun item =>
                         bind_targets targets item ;;;
                         keep <- match cond with
                                 | Some c => cv <- eval c ;; truthy cv
                                 | None => ret true
                                 end ;;
                         if keep then v <- eval elt ;; ret (Some v)
                         else ret None)
                      items) ;;
      new_obj (OList vs)
  end.

(** Imported tables are table expressions with no restriction yet. *)
Definition import_tables (names : list string) : M unit :=
  for_loop (fun n => match n with
                     | VStr x => bind_name x (VQuery x [] false)
                     | _ => ret tt
                     end)
           (map VStr names).

(** Statements.  An assignment evaluates its right-hand side first.  A [try]
    runs its handler from the state the failure left. *)
Fixpoint exec (s : stmt) {struct s} : M unit :=
  let block :=
    fix go (ss : list stmt) {struct ss} : M unit :=
      match ss with
      | [] => ret tt
      | s :: t => exec s ;;; go t
      end in
  match s with
  | SImport m n => bind_name n (VModule m)
  | SImportFrom _ names => import_tables names
  | SAssign (TName x) e => v <- eval e ;; bind_name x v
  | SAssign (TSub c i) e =>
      v <- eval e ;; cv <- eval c ;; iv <- eval i ;; store_subscript cv iv v
  | SExpr e => eval e ;;; ret tt
  | SIf c body orelse =>
      cv <- eval c ;; b <- truthy cv ;;
      if b then block body else block orelse
  | SFor targets iter body =>
      it <- eval iter ;;
      items <- items_of it ;;
      for_loop (fun item => bind_targets targets item ;;; block body) items
  | STry body handler =>
      fun st => match block body st with
                | (st1, Ok _) => (st1, Ok tt)
                | (st1, Raise _) => block handler st1
                end
  end.

Fixpoint exec_block (ss : list stmt) : M unit :=
  match ss with
  | [] => ret tt
  | s :: t => exec s ;;; exec_block t
  end.

Definition run_cell (c : cell) : M unit := exec_block (map snd c).

(** Running cells one after the other stops at the first that fails. *)
Fixpoint run_cells (cs : list cell) : M unit :=
  match cs with
  | [] => ret tt
  | c :: t => run_cell c ;;; run_cells t
  end.

End WithFramework.

(** A fresh kernel: the builtins the notebook uses, an empty heap. *)
Definition builtins : list (string * value) :=
  map (fun x => (x, VBuiltin x))
      ["print"; "dict"; "zip"; "DeprecationWarning"; "ResourceWarning"].

Definition start (d : database) : state :=
  {| env := builtins; heap := []; db := d; log := [] |}.

(** The interactions in the order they happened. *)
Definition trace (st : state) : list event := rev (log st).

Definition failure_of (ev : event) : option error :=
  match ev_res ev with
  | Raise e => Some e
  | Ok _ => None
  end.

(** A run from [st] to [st'] with outcome [r] hides no failure: the database
    is as the latest call left it, no call before the latest failed, and if the
    latest failed, its error is the outcome. *)
Definition propagates {A} (st st' : state) (r : result A) : Prop :=
  exists new,
    log st' = new ++ log st /\
    match new with
    | [] => db st' = db st
    | ev :: older =>
        db st' = ev_db ev /\
        Forall (fun e => failure_of e = None) older /\
        forall e, failure_of ev = Some e -> r = Raise e
    end.

Definition faithful {A} (m : M A) : Prop :=
  forall st st' r, m st = (st', r) -> propagates st st' r.

(** A computation that does not go outside. *)
Definition quiet {A} (m : M A) : Prop :=
  forall st st' r, m st = (st', r) -> log st' = log st /\ db st' = db st.

(** The interactions of a run from [st] to [st'], in order. *)
Definition since (st st' : state) : list event :=
  rev (firstn (length (log st') - length (log st)) (log st')).

(** The arguments the calls of [fn] were given, in order. *)
Definition calls_of (fn : string) (tr : list event)
  : list (list dval * list (string * dval)) :=
  map (fun ev => (ev_args ev, ev_kwargs ev))
      (filter (fun ev => String.eqb (ev_fn ev) fn) tr).

(** The rows handed to [T.insert1], in order. *)
Definition rows_given (t : string) (tr : list event) : list dval :=
  flat_map (fun c => match fst c with
                     | [_; row] => [row]
                     | _ => []
                     end) (calls_of (t ++ ".insert1") tr).

(** What the calls of [fn] answered, in order. *)
Definition answers_of (fn : string) (tr : list event) : list (result dval) :=
  map ev_res (filter (fun ev => String.eqb (ev_fn ev) fn) tr).

(** Every row handed to an [insert1] of any table. *)
Definition is_insert1 (ev : event) : bool :=
  match ev_args ev with
  | [DQuery t _ _; _] => String.eqb (ev_fn ev) (t ++ ".insert1")
  | _ => false
  end.

Definition all_rows_given (tr : list event) : list (string * dval) :=
  flat_map (fun ev => match ev_args ev with
                      | [DQuery t _ _; row] =>
                          if is_insert1 ev then [(t, row)] else []
                      | _ => []
                      end) tr.

(** What an expression is worth in a state, packed. *)
Definition observe (sch : schema)
    (oracle : string -> list dval -> list (string * dval) -> database
              -> database * result dval)
    (fmt : dval -> string -> string) (e : expr) (st : state) : option dval :=
  match eval sch oracle fmt e st with
  | (st1, Ok v) => pack (heap st1) v
  | _ => None
  end.

(** Whether the table already holds a row with the key of [row]. *)
Definition stores_key (sch : schema) (t : string) (row : dval) (d : database) : bool :=
  match as_row sch t row with
  | Ok r =>
      match row_key sch t r with
      | Some k => key_present sch t k (d t)
      | None => false
      end
  | Raise _ => false
  end.

(** [x] is [d] or lies somewhere in it. *)
Fixpoint occurs_in (x d : dval) {struct d} : bool :=
  dval_eqb x d ||
  match d with
  | DArr xs | DList xs =>
      (fix go (l : list dval) : bool :=
         match l with
         | [] => false
         | y :: t => occurs_in x y || go t
         end) xs
  | DDict kvs =>
      (fix go (l : list (string * dval)) : bool :=
         match l with
         | [] => false
         | (_, y) :: t => occurs_in x y || go t
         end) kvs
  | _ => false
  end.

(** Some call answered with [x], or with something that holds [x]. *)
Definition answered (x : dval) (tr : list event) : bool :=
  existsb (fun ev => match ev_res ev with
                     | Ok d => occurs_in x d
                     | Raise _ => false
                     end) tr.

(** The row of line 163, for a first valid interval that starts at [a]. *)
Definition sort_interval_entry (a : float) : dval :=
  DDict [ ("nwb_file_name", DStr "montague20200802_tutorial_.nwb");
          ("sort_interval_name", DStr "02_r1_first180");
          ("sort_interval", DArr [DFloat a; DFloat (a + 180)]) ].

(** The restriction of line 141. *)
Definition interval_list_key : dval :=
  DDict [ ("nwb_file_name", DStr "montague20200802_tutorial_.nwb");
          ("interval_list_name", DStr "02_r1") ].




(** The restriction of line 181. *)
Definition sort_interval_key : dval :=
  DDict [ ("nwb_file_name", DStr "montague20200802_tutorial_.nwb");
          ("sort_interval_name", DStr "02_r1_first180") ].

Definition is_dict (d : dval) : bool :=
  match d with
  | DDict _ => true
  | _ => false
  end.

End Interp.

(* ===================================================================== *)
(** ** A small world to run the notebook in *)

Module Demo.
Import Syntax Store Framework Interp.

Fixpoint pick {A} (t : string) (cases : list (string * A)) (default : A) : A :=
  match cases with
  | [] => default
  | (k, v) :: rest => if String.eqb t k then v else pick t rest default
  end.

Definition recording_key : list string :=
  ["nwb_file_name"; "sort_group_id"; "sort_interval_name";
   "filter_parameter_set_name"; "artifact_parameter_name"].

Definition demo_schema : schema := {|
  heading := fun t => pick t
    [ ("LabMember.LabMemberInfo",
       ["lab_member_name"; "google_user_name"; "datajoint_user_name"]);
      ("LabTeam.LabTeamMember", ["team_name"; "lab_member_name"]);
      ("SortInterval", ["nwb_file_name"; "sort_interval_name"; "sort_interval"]);
      ("SpikeSortingFilterParameters",
       ["filter_parameter_set_name"; "filter_parameter_dict"]);
      ("SpikeSorterParameters",
       ["sorter_name"; "spikesorter_parameter_set_name"; "parameter_dict"]);
      ("SpikeSortingRecordingSelection",
       recording_key ++ ["interval_list_name"; "team_name"]);
      ("SpikeSortingSelection",
       recording_key ++ ["sorter_name"; "spikesorter_parameter_set_name"]) ] [];
  primary_key := fun t => pick t
    [ ("LabMember.LabMemberInfo", ["lab_member_name"]);
      ("LabTeam.LabTeamMember", ["team_name"; "lab_member_name"]);
      ("SortInterval", ["nwb_file_name"; "sort_interval_name"]);
      ("SpikeSortingFilterParameters", ["filter_parameter_set_name"]);
      ("SpikeSorterParameters", ["sorter_name"; "spikesorter_parameter_set_name"]);
      ("SpikeSortingRecordingSelection", recording_key);
      ("SpikeSortingWorkspace", recording_key);
      ("SpikeSortingSelection",
       recording_key ++ ["sorter_name"; "spikesorter_parameter_set_name"]) ] [];
  part_tables := fun t => pick t
    [ ("LabMember", ["LabMemberInfo"]);
      ("LabTeam", ["LabTeamMember"]);
      ("SortGroup", ["SortGroupElectrode"]) ] []
|}.

Definition nwb : dval := DStr "montague20200802_tutorial_.nwb".

Definition recording : row :=
  [ ("nwb_file_name", nwb); ("sort_group_id", DInt 10);
    ("sort_interval_name", DStr "02_r1_first180");
    ("filter_parameter_set_name", DStr "franklab_default_hippocampus");
    ("artifact_parameter_name", DStr "none") ].

Definition ms4_defaults : list (string * dval) :=
  [ ("detect_sign", DInt (-1)); ("adjacency_radius", DInt (-1));
    ("freq_min", DInt 300); ("freq_max", DInt 6000);
    ("detect_threshold", DInt 3); ("num_workers", DInt 1) ].

(** A database in which every cell of the tutorial goes through; the first
    valid interval starts at [t0]. *)
Definition demo_tables (t0 : float) : list (string * table) :=
  [ ("LabTeam.LabTeamMember",
     [ [("team_name", DStr "LorenLab"); ("lab_member_name", DStr "Ada")];
       [("team_name", DStr "Other"); ("lab_member_name", DStr "Bob")] ]);
    ("LabMember.LabMemberInfo",
     [ [("lab_member_name", DStr "Bob"); ("google_user_name", DStr "bob@x");
        ("datajoint_user_name", DStr "bob")];
       [("lab_member_name", DStr "Ada"); ("google_user_name", DStr "ada@x");
        ("datajoint_user_name", DStr "ada")] ]);
    ("IntervalList",
     [ [("nwb_file_name", nwb); ("interval_list_name", DStr "02_r1");
        ("valid_times", DArr [DArr [DFloat t0; DFloat 5500]])] ]);
    ("Raw", [ [("nwb_file_name", nwb); ("sampling_rate", DFloat 30000)] ]);
    ("SpikeSortingFilterParameters",
     [ [("filter_parameter_set_name", DStr "default");
        ("filter_parameter_dict",
         DDict [("frequency_min", DInt 300); ("frequency_max", DInt 6000)])] ]);
    ("SpikeSorterParameters",
     [ [("sorter_name", DStr "mountainsort4");
        ("spikesorter_parameter_set_name", DStr "default");
        ("parameter_dict", DDict ms4_defaults)] ]);
    ("SpikeSortingWorkspace",
     [ recording ++ [("workspace_uri", DStr "workspace://abc")] ]);
    ("SortingID", [ recording ++ [("sorting_id", DStr "S-1")] ]) ].

Definition demo_db_from (t0 : float) : database :=
  fun t => pick t (demo_tables t0) [].

Definition demo_db : database := demo_db_from 100.

(** The same, with the sort interval of an earlier session still stored. *)
Definition stale_db : database :=
  db_set "SortInterval"
    [ [("nwb_file_name", nwb); ("sort_interval_name", DStr "02_r1_first180");
       ("sort_interval", DArr [DFloat 7; DFloat 8])] ]
    demo_db.

(** An outside that answers every call, and changes nothing. *)
Definition demo_oracle (fn : string) (args : list dval)
    (kw : list (string * dval)) (d : database) : database * result dval :=
  (d, pick fn
        [ ("sortingview.load_workspace", Ok (DObj "Workspace" (DStr "w")));
          ("Workspace.recording_ids", Ok (DList [DStr "R-1"]));
          ("Workspace.label", Ok (DStr "label"));
          ("Workspace.experimental_spikesortingview", Ok (DStr "https://figurl"));
          ("LabTeam._____", Raise (AttributeError "_____")) ]
        (Ok DNone)).

(** An outside whose calls all fail. *)
Definition failing_oracle (fn : string) (args : list dval)
    (kw : list (string * dval)) (d : database) : database * result dval :=
  (d, Raise (ExternalError (DStr fn))).

Definition demo_format (d : dval) (spec : string) : string := "?".

Definition run_demo (cs : list cell) (d : database) : state * result unit :=
  run_cells demo_schema demo_oracle demo_format cs (start d).

(** The state the demo is in once the sort interval has been inserted. *)
Definition sort_interval_stored : state :=
  fst (run_demo [ cell_imports; cell_nwb_file; cell_interval_list;
                  cell_sort_interval; cell_sort_interval_insert ] demo_db).

Definition sort_interval_row : expr :=
  EDict [('"nwb_file_name", $"nwb_file_name");
         ('"sort_interval_name", $"sort_interval_name");
         ('"sort_interval", $"sort_interval")].

(** The demo up to the insertion of the sort interval, and its trace. *)
Definition cells_to_sort_interval_insert : list cell :=
  cells_before_interval
    ++ [cell_interval_list; cell_sort_interval; cell_sort_interval_insert].

Definition trace_to_insert : list event :=
  trace (fst (run_demo cells_to_sort_interval_insert demo_db)).


(** A first valid interval that starts at 100.1 s. *)
Definition t_inexact : float := 0x1.9066666666666p+6.

(** The demo, stretch by stretch. *)
Definition st_before_interval : state :=
  fst (run_demo cells_before_interval demo_db).

Definition st_interval_fetched : state :=
  fst (run_cells demo_schema demo_oracle demo_format [cell_interval_list]
         st_before_interval).

Definition st_interval_inserted : state :=
  fst (run_cells demo_schema demo_oracle demo_format
         [cell_sort_interval; cell_sort_interval_insert] st_interval_fetched).

Definition st_interval_read_back : state :=
  fst (run_cells demo_schema demo_oracle demo_format cells_sort_interval
         st_interval_fetched).

Definition cells_to_sort_interval_fetch : list cell :=
  cells_before_interval ++ [cell_interval_list] ++ cells_sort_interval.

(** The names bound once the cells before the interval list have run. *)
Definition env_before_interval : list (string * value) :=
  Eval vm_compute in env (fst (run_demo cells_before_interval demo_db)).

(** The names bound once the sort interval has been read back (line 183). *)
Definition env_after_intervals : list (string * value) :=
  Eval vm_compute in env st_interval_read_back.

End Demo.

(* ===================================================================== *)
(** * Properties *)

Import Syntax Census Store Framework Interp.

(** ** Stored data and the heap *)

Section DvalInduction.
Variable P : dval -> Prop.
Hypothesis HNone : P DNone.
Hypothesis HBool : forall b, P (DBool b).
Hypothesis HInt : forall z, P (DInt z).
Hypothesis HFloat : forall f, P (DFloat f).
Hypothesis HStr : forall s, P (DStr s).
Hypothesis HArr : forall xs, Forall P xs -> P (DArr xs).
Hypothesis HList : forall xs, Forall P xs -> P (DList xs).
Hypothesis HDict : forall kvs, Forall (fun kv => P (snd kv)) kvs -> P (DDict kvs).
Hypothesis HQuery : forall t r p, P (DQuery t r p).
Hypothesis HObj : forall c p, P (DObj c p).
Hypothesis HName : forall x, P (DName x).

(** Induction on stored data, with the components of a compound at hand. *)
Lemma dval_nested_ind : forall d, P d.
Proof.
  fix IH 1. intros [ | b | z | f | s | xs | xs | kvs | t r p | c p | x ].
  - exact HNone.
  - apply HBool.
  - apply HInt.
  - apply HFloat.
  - apply HStr.
  - apply HArr. induction xs as [|d t IHt]; constructor; [apply IH | exact IHt].
  - apply HList. induction xs as [|d t IHt]; constructor; [apply IH | exact IHt].
  - apply HDict. induction kvs as [|[k d] t IHt]; constructor; [apply IH | exact IHt].
  - apply HQuery.
  - apply HObj.
  - apply HName.
Qed.
End DvalInduction.

Lemma thaw_at_arr r o xs :
  thaw_at r o (DArr xs)
  = (VRef (r, o), OArr (fst (thaw_seq r (S o) xs)) :: snd (thaw_seq r (S o) xs)).
Proof. reflexivity. Qed.

Lemma thaw_at_list r o xs :
  thaw_at r o (DList xs)
  = (VRef (r, o), OList (fst (thaw_seq r (S o) xs)) :: snd (thaw_seq r (S o) xs)).
Proof. reflexivity. Qed.

Lemma thaw_at_dict r o kvs :
  thaw_at r o (DDict kvs)
  = (VRef (r, o), ODict (fst (thaw_items r (S o) kvs)) :: snd (thaw_items r (S o) kvs)).
Proof. reflexivity. Qed.

Lemma thaw_seq_cons r o d t :
  thaw_seq r o (d :: t)
  = (fst (thaw_at r o d) :: fst (thaw_seq r (o + length (snd (thaw_at r o d))) t),
     snd (thaw_at r o d) ++ snd (thaw_seq r (o + length (snd (thaw_at r o d))) t)).
Proof. reflexivity. Qed.

Lemma thaw_items_cons r o k d t :
  thaw_items r o ((k, d) :: t)
  = ((k, fst (thaw_at r o d)) :: fst (thaw_items r (o + length (snd (thaw_at r o d))) t),
     snd (thaw_at r o d) ++ snd (thaw_items r (o + length (snd (thaw_at r o d))) t)).
Proof. reflexivity. Qed.

Lemma holds_app g r o os1 os2 :
  holds g r o (os1 ++ os2) ->
  holds g r o os1 /\ holds g r (o + length os1) os2.
Proof.
  intros H; split; intros i x Hi.
  - apply H. rewrite nth_error_app1; [exact Hi|]. apply nth_error_Some. congruence.
  - replace (o + length os1 + i) with (o + (length os1 + i)) by lia.
    apply H. rewrite nth_error_app2 by lia.
    replace (length os1 + i - length os1) with i by lia. exact Hi.
Qed.

Lemma holds_cons g r o x os :
  holds g r o (x :: os) -> heap_get g (r, o) = Some x /\ holds g r (S o) os.
Proof.
  intros H; split.
  - replace o with (o + 0) by lia. apply H. reflexivity.
  - intros i y Hi. replace (S o + i) with (o + S i) by lia. apply H. exact Hi.
Qed.

Lemma thaw_items_keys r o kvs :
  map fst (fst (thaw_items r o kvs)) = map fst kvs.
Proof.
  revert o; induction kvs as [|[k d] t IH]; intros o; [reflexivity|].
  rewrite thaw_items_cons. cbn. f_equal. apply IH.
Qed.

Lemma combine_fst_snd {A B} (l : list (A * B)) : combine (map fst l) (map snd l) = l.
Proof. induction l as [|[a b] t IH]; cbn; congruence. Qed.

(** Packing what was unpacked gives the stored data back, in any heap that
    still holds the unpacked objects, with fuel beyond their number. *)
Lemma freeze_thaw_at d :
  forall blk o g n,
    length (snd (thaw_at blk o d)) < n ->
    holds g blk o (snd (thaw_at blk o d)) ->
    freeze n g (fst (thaw_at blk o d)) = Some d.
Proof.
  induction d using dval_nested_ind; intros blk o g n Hn Hg;
    try (destruct n; [lia | reflexivity]).
  - (* DArr *)
    rewrite thaw_at_arr in *. cbn [fst snd] in *.
    destruct n as [|n]; [cbn in Hn; lia|]. cbn [length] in Hn.
    apply holds_cons in Hg. destruct Hg as [H0 Hg]. cbn [freeze]. rewrite H0.
    enough (E : map_opt (freeze n g) (fst (thaw_seq blk (S o) xs)) = Some xs)
      by (rewrite E; reflexivity).
    assert (Hn' : length (snd (thaw_seq blk (S o) xs)) < n) by lia. clear Hn H0.
    revert Hn' Hg. generalize (S o) as o'. induction H as [|d t Hd Ht IHt]; intros o' Hn Hg.
    + reflexivity.
    + rewrite thaw_seq_cons in *. cbn [fst snd] in *. rewrite length_app in Hn.
      apply holds_app in Hg. destruct Hg as [Hg1 Hg2].
      cbn [map_opt]. rewrite Hd by (auto; lia). rewrite IHt by (auto; lia). reflexivity.
  - (* DList *)
    rewrite thaw_at_list in *. cbn [fst snd] in *.
    destruct n as [|n]; [cbn in Hn; lia|]. cbn [length] in Hn.
    apply holds_cons in Hg. destruct Hg as [H0 Hg]. cbn [freeze]. rewrite H0.
    enough (E : map_opt (freeze n g) (fst (thaw_seq blk (S o) xs)) = Some xs)
      by (rewrite E; reflexivity).
    assert (Hn' : length (snd (thaw_seq blk (S o) xs)) < n) by lia. clear Hn H0.
    revert Hn' Hg. generalize (S o) as o'. induction H as [|d t Hd Ht IHt]; intros o' Hn Hg.
    + reflexivity.
    + rewrite thaw_seq_cons in *. cbn [fst snd] in *. rewrite length_app in Hn.
      apply holds_app in Hg. destruct Hg as [Hg1 Hg2].
      cbn [map_opt]. rewrite Hd by (auto; lia). rewrite IHt by (auto; lia). reflexivity.
  - (* DDict *)
    rewrite thaw_at_dict in *. cbn [fst snd] in *.
    destruct n as [|n]; [cbn in Hn; lia|]. cbn [length] in Hn.
    apply holds_cons in Hg. destruct Hg as [H0 Hg]. cbn [freeze]. rewrite H0.
    rewrite thaw_items_keys.
    enough (E : map_opt (freeze n g) (map snd (fst (thaw_items blk (S o) kvs)))
                = Some (map snd kvs))
      by (rewrite E; cbn; rewrite combine_fst_snd; reflexivity).
    assert (Hn' : length (snd (thaw_items blk (S o) kvs)) < n) by lia. clear Hn H0.
    revert Hn' Hg. generalize (S o) as o'.
    induction H as [|[k d] t Hd Ht IHt]; intros o' Hn Hg.
    + reflexivity.
    + cbn [snd] in Hd.
      rewrite thaw_items_cons in *. cbn [fst snd map] in *. rewrite length_app in Hn.
      apply holds_app in Hg. destruct Hg as [Hg1 Hg2].
      cbn [map_opt]. rewrite Hd by (auto; lia). rewrite IHt by (auto; lia). reflexivity.
Qed.

Lemma heap_size_block g r b :
  nth_error g r = Some b -> length b <= heap_size g.
Proof.
  unfold heap_size.
  revert r; induction g as [|b' g IH]; intros [|r] H; cbn in *; try discriminate.
  - injection H as ->. lia.
  - apply IH in H. lia.
Qed.

Lemma holds_size g r o os : holds g r o os -> length os <= heap_size g.
Proof.
  intros H. destruct os as [|x os]; [cbn; lia|].
  destruct (nth_error (x :: os) (length os)) as [y|] eqn:E.
  - apply H in E. unfold heap_get in E. cbn [fst snd] in E.
    destruct (nth_error g r) as [b|] eqn:Eb; [|discriminate].
    apply heap_size_block in Eb.
    assert (o + length os < length b) by (apply nth_error_Some; congruence).
    cbn [length]. lia.
  - apply nth_error_None in E. cbn in E. lia.
Qed.

(** [pack] undoes [thaw_at] wherever the unpacked objects still are. *)
Lemma pack_thaw_at d r o g :
  holds g r o (snd (thaw_at r o d)) ->
  pack g (fst (thaw_at r o d)) = Some d.
Proof.
  intros H. apply freeze_thaw_at; [|exact H].
  apply holds_size in H. unfold freeze_fuel. lia.
Qed.

(* ===================================================================== *)
(** ** Dicts on the heap *)

Lemma freeze_ref n g l :
  freeze (S n) g (VRef l)
  = match heap_get g l with
    | Some (OArr vs) => option_map DArr (map_opt (freeze n g) vs)
    | Some (OList vs) => option_map DList (map_opt (freeze n g) vs)
    | Some (ODict kvs) =>
        option_map (fun ds => DDict (combine (map fst kvs) ds))
                   (map_opt (freeze n g) (map snd kvs))
    | None => None
    end.
Proof. reflexivity. Qed.

Lemma freeze_dict n g l kvs :
  heap_get g l = Some (ODict kvs) ->
  freeze (S n) g (VRef l) = option_map DDict (freeze_items n g kvs).
Proof.
  intro H. rewrite freeze_ref, H. unfold freeze_items.
  destruct (map_opt (freeze n g) (map snd kvs)); reflexivity.
Qed.


Lemma freeze_items_cons n g k v kvs :
  freeze_items n g ((k, v) :: kvs)
  = match freeze n g v, freeze_items n g kvs with
    | Some d, Some l => Some ((k, d) :: l)
    | _, _ => None
    end.
Proof.
  unfold freeze_items. cbn [map map_opt fst snd].
  destruct (freeze n g v); [|reflexivity].
  destruct (map_opt (freeze n g) (map snd kvs)); reflexivity.
Qed.

Lemma freeze_items_assoc_set n g k v d kvs l :
  freeze n g v = Some d ->
  freeze_items n g kvs = Some l ->
  freeze_items n g (assoc_set k v kvs) = Some (assoc_set k d l).
Proof.
  intros Hv. revert l; induction kvs as [|[k' v'] t IH]; intros l Hl.
  - cbn in Hl. injection Hl as <-. cbn [assoc_set].
    rewrite freeze_items_cons, Hv. reflexivity.
  - rewrite freeze_items_cons in Hl.
    destruct (freeze n g v') as [d'|] eqn:E'; [|discriminate].
    destruct (freeze_items n g t) as [l'|] eqn:Et; [|discriminate].
    injection Hl as <-. cbn [assoc_set].
    destruct (String.eqb k k').
    + rewrite freeze_items_cons, Hv, Et. reflexivity.
    + rewrite freeze_items_cons, E', (IH l' eq_refl). reflexivity.
Qed.

Lemma freeze_items_thaw kvs :
  forall r o g n,
    length (snd (thaw_items r o kvs)) < n ->
    holds g r o (snd (thaw_items r o kvs)) ->
    freeze_items n g (fst (thaw_items r o kvs)) = Some kvs.
Proof.
  induction kvs as [|[k d] t IH]; intros r o g n Hn Hg.
  - reflexivity.
  - rewrite thaw_items_cons in *. cbn [fst snd] in *.
    rewrite length_app in Hn. apply holds_app in Hg. destruct Hg as [H1 H2].
    rewrite freeze_items_cons. rewrite freeze_thaw_at by (lia || assumption).
    rewrite IH by (lia || assumption). reflexivity.
Qed.









(** The items of an unpacked array or list pack to the stored ones. *)
Lemma freeze_thaw_seq xs :
  forall r o g n,
    length (snd (thaw_seq r o xs)) < n ->
    holds g r o (snd (thaw_seq r o xs)) ->
    map_opt (freeze n g) (fst (thaw_seq r o xs)) = Some xs.
Proof.
  induction xs as [|d t IH]; intros r o g n Hn Hg.
  - reflexivity.
  - rewrite thaw_seq_cons in *. cbn [fst snd map_opt] in *.
    rewrite length_app in Hn. apply holds_app in Hg. destruct Hg as [H1 H2].
    rewrite freeze_thaw_at by (lia || assumption).
    rewrite IH by (lia || assumption). reflexivity.
Qed.

Lemma freeze_dict_ok n g l kvs ds :
  heap_get g l = Some (ODict kvs) ->
  freeze_items n g kvs = Some ds ->
  freeze (S n) g (VRef l) = Some (DDict ds).
Proof. intros H1 H2. rewrite (freeze_dict _ _ _ _ H1), H2. reflexivity. Qed.

Lemma freeze_items_cons_ok n g k v d kvs ds :
  freeze n g v = Some d ->
  freeze_items n g kvs = Some ds ->
  freeze_items n g ((k, v) :: kvs) = Some ((k, d) :: ds).
Proof. intros H1 H2. rewrite freeze_items_cons, H1, H2. reflexivity. Qed.

Lemma freeze_items_thaw_ok kvs r o g n :
  holds g r o (snd (thaw_items r o kvs)) ->
  heap_size g < n ->
  freeze_items n g (fst (thaw_items r o kvs)) = Some kvs.
Proof.
  intros H Hn. apply freeze_items_thaw; [|exact H].
  apply holds_size in H. lia.
Qed.


(* ===================================================================== *)
(** ** Induction on the syntax *)

Section ExprInduction.
Variable P : expr -> Prop.
Hypothesis HName : forall x, P (EName x).
Hypothesis HStr : forall s, P (EStr s).
Hypothesis HInt : forall z, P (EInt z).
Hypothesis HFloat : forall f, P (EFloat f).
Hypothesis HBool : forall b, P (EBool b).
Hypothesis HAttr : forall e a, P e -> P (EAttr e a).
Hypothesis HCall : forall f args kw,
    P f -> Forall P args -> Forall (fun kv => P (snd kv)) kw -> P (ECall f args kw).
Hypothesis HSub : forall c i, P c -> P i -> P (ESub c i).
Hypothesis HBin : forall op l r, P l -> P r -> P (EBin op l r).
Hypothesis HIn : forall l r, P l -> P r -> P (EIn l r).
Hypothesis HDict : forall items,
    Forall (fun kv => P (fst kv) /\ P (snd kv)) items -> P (EDict items).
Hypothesis HList : forall items, Forall P items -> P (EList items).
Hypothesis HFmt : forall parts,
    Forall (fun p => match p with inl _ => True | inr (e, _) => P e end) parts ->
    P (EFmt parts).
Hypothesis HComp : forall elt targets iter cond,
    P elt -> P iter -> (forall c, cond = Some c -> P c) ->
    P (EListComp elt targets iter cond).

Lemma expr_nested_ind : forall e, P e.
Proof.
  fix IH 1.
  intros [ x | s | z | f | b | e a | f args kw | c i | op l r | l r
         | items | items | parts | elt targets iter cond ].
  - apply HName.
  - apply HStr.
  - apply HInt.
  - apply HFloat.
  - apply HBool.
  - apply HAttr, IH.
  - apply HCall; [apply IH | |].
    + induction args as [|a t IHt]; constructor; [apply IH | exact IHt].
    + induction kw as [|[k a] t IHt]; constructor; [apply IH | exact IHt].
  - apply HSub; apply IH.
  - apply HBin; apply IH.
  - apply HIn; apply IH.
  - apply HDict. induction items as [|[k v] t IHt]; constructor;
      [split; apply IH | exact IHt].
  - apply HList. induction items as [|a t IHt]; constructor; [apply IH | exact IHt].
  - apply HFmt. induction parts as [|[s|[e spec]] t IHt]; constructor;
      [exact I | exact IHt | apply IH | exact IHt].
  - apply HComp; [apply IH | apply IH |].
    destruct cond as [c|]; intros c' Hc; [injection Hc as <-; apply IH | discriminate].
Qed.
End ExprInduction.

Section StmtInduction.
Variable P : stmt -> Prop.
Hypothesis HImport : forall m n, P (SImport m n).
Hypothesis HImportFrom : forall m ns, P (SImportFrom m ns).
Hypothesis HAssign : forall t e, P (SAssign t e).
Hypothesis HExpr : forall e, P (SExpr e).
Hypothesis HIf : forall c body orelse,
    Forall P body -> Forall P orelse -> P (SIf c body orelse).
Hypothesis HFor : forall ts iter body, Forall P body -> P (SFor ts iter body).
Hypothesis HTry : forall body handler,
    Forall P body -> Forall P handler -> P (STry body handler).

Lemma stmt_nested_ind : forall s, P s.
Proof.
  fix IH 1.
  intros [ m n | m ns | t e | e | c body orelse | ts iter body | body handler ].
  - apply HImport.
  - apply HImportFrom.
  - apply HAssign.
  - apply HExpr.
  - apply HIf.
    + induction body as [|a t IHt]; constructor; [apply IH | exact IHt].
    + induction orelse as [|a t IHt]; constructor; [apply IH | exact IHt].
  - apply HFor. induction body as [|a t IHt]; constructor; [apply IH | exact IHt].
  - apply HTry.
    + induction body as [|a t IHt]; constructor; [apply IH | exact IHt].
    + induction handler as [|a t IHt]; constructor; [apply IH | exact IHt].
Qed.
End StmtInduction.

(* ===================================================================== *)
(** ** Calls that go outside, and calls that do not *)

Lemma quiet_ret {A} (a : A) : quiet (ret a).
Proof. intros st st' r H. injection H as <- _. auto. Qed.

Lemma quiet_raise {A} e : quiet (@raise A e).
Proof. intros st st' r H. injection H as <- _. auto. Qed.

Lemma quiet_bind {A B} (m : M A) (k : A -> M B) :
  quiet m -> (forall a, quiet (k a)) -> quiet (bind m k).
Proof.
  intros Hm Hk st st' r. unfold bind.
  destruct (m st) as [st1 [a|e]] eqn:E; intro H.
  - apply Hm in E. apply Hk in H. destruct E as [E1 E2], H as [H1 H2].
    split; congruence.
  - injection H as <- _. apply Hm in E. exact E.
Qed.

Lemma quiet_get_env : quiet get_env.
Proof. intros st st' r H. injection H as <- _. auto. Qed.
Lemma quiet_set_env e : quiet (set_env e).
Proof. intros st st' r H. injection H as <- _. auto. Qed.
Lemma quiet_get_heap : quiet get_heap.
Proof. intros st st' r H. injection H as <- _. auto. Qed.
Lemma quiet_set_heap h : quiet (set_heap h).
Proof. intros st st' r H. injection H as <- _. auto. Qed.
Lemma quiet_get_db : quiet get_db.
Proof. intros st st' r H. injection H as <- _. auto. Qed.

Lemma quiet_scoped {A} (m : M A) : quiet m -> quiet (scoped m).
Proof.
  intros Hm st st' r. unfold scoped. destruct (m st) as [st1 r1] eqn:E.
  intro H. injection H as <- _. apply Hm in E. exact E.
Qed.

Ltac quiet_step :=
  first
    [ apply quiet_ret | apply quiet_raise
    | apply quiet_get_env | apply quiet_set_env
    | apply quiet_get_heap | apply quiet_set_heap | apply quiet_get_db
    | apply quiet_bind; [|intro]
    | match goal with
      | |- quiet (match ?x with _ => _ end) => destruct x
      end ].

Ltac quiet_tac := repeat quiet_step.

Lemma quiet_lift_opt {A} (o : option A) e : quiet (lift_opt o e).
Proof. unfold lift_opt. quiet_tac. Qed.

Lemma quiet_lift_res {A} (r : result A) : quiet (lift_res r).
Proof. unfold lift_res. quiet_tac. Qed.

Lemma quiet_lookup_name x : quiet (lookup_name x).
Proof. unfold lookup_name, lift_opt. quiet_tac. Qed.

Lemma quiet_bind_name x v : quiet (bind_name x v).
Proof. unfold bind_name. quiet_tac. Qed.

Lemma quiet_new_obj o : quiet (new_obj o).
Proof. unfold new_obj. quiet_tac. Qed.

Lemma quiet_deref l : quiet (deref l).
Proof. unfold deref, lift_opt. quiet_tac. Qed.

Lemma quiet_packM v : quiet (packM v).
Proof. unfold packM, lift_opt. quiet_tac. Qed.

Lemma quiet_unpackM d : quiet (unpackM d).
Proof. unfold unpackM. quiet_tac. Qed.

Lemma quiet_seq_get vs z : quiet (seq_get vs z).
Proof. unfold seq_get, lift_opt. quiet_tac. Qed.

Lemma quiet_subscript c i : quiet (subscript c i).
Proof.
  unfold subscript.
  destruct c; try apply quiet_raise; destruct i; try apply quiet_raise;
    try apply quiet_seq_get;
    (apply quiet_bind; [apply quiet_deref | intros []]);
    try apply quiet_raise; try apply quiet_seq_get; apply quiet_lift_opt.
Qed.

Lemma quiet_store_subscript c i v : quiet (store_subscript c i v).
Proof.
  unfold store_subscript.
  destruct c; try apply quiet_raise; destruct i; try apply quiet_raise;
    (apply quiet_bind; [apply quiet_deref | intros o]);
    (apply quiet_bind; [apply quiet_get_heap | intros h]);
    destruct o; quiet_tac.
Qed.

Lemma quiet_arith op a b : quiet (arith op a b).
Proof. unfold arith. destruct op; quiet_tac. Qed.

Lemma quiet_arith_int op a b : quiet (arith_int op a b).
Proof. unfold arith_int. destruct op; try apply quiet_ret. apply quiet_arith. Qed.

Lemma quiet_binary op a b : quiet (binary op a b).
Proof.
  unfold binary.
  destruct op, a, b; try apply quiet_raise; try apply quiet_ret;
    try apply quiet_arith; try apply quiet_arith_int;
    (apply quiet_bind; [apply quiet_packM | intros d]); destruct d; quiet_tac.
Qed.

Lemma quiet_items_of v : quiet (items_of v).
Proof.
  unfold items_of. destruct v; try apply quiet_raise; try apply quiet_ret.
  apply quiet_bind; [apply quiet_deref | intros []]; apply quiet_ret.
Qed.

Lemma quiet_contains c x : quiet (contains c x).
Proof.
  unfold contains. apply quiet_bind; [apply quiet_items_of | intro].
  quiet_tac.
Qed.

Lemma quiet_truthy v : quiet (truthy v).
Proof.
  unfold truthy. destruct v; try apply quiet_ret.
  apply quiet_bind; [apply quiet_deref | intros []]; quiet_tac.
Qed.

Lemma quiet_bind_targets ts item : quiet (bind_targets ts item).
Proof.
  unfold bind_targets. apply quiet_bind; [apply quiet_get_env | intro e].
  destruct ts as [|x [|y ts]]; try apply quiet_set_env;
    (apply quiet_bind; [apply quiet_items_of | intro]);
    (apply quiet_bind; [apply quiet_lift_opt | intro]); apply quiet_set_env.
Qed.

Lemma quiet_dict_key v : quiet (dict_key v).
Proof. unfold dict_key. destruct v; quiet_tac. Qed.

Lemma quiet_mapM {A B} (f : A -> M B) l :
  (forall x, quiet (f x)) -> quiet (mapM f l).
Proof.
  intros Hf. induction l as [|x t IH]; cbn [mapM]; [apply quiet_ret|].
  apply quiet_bind; [apply Hf | intro]. apply quiet_bind; [apply IH | intro].
  apply quiet_ret.
Qed.

Lemma quiet_for_loop (body : value -> M unit) items :
  (forall x, quiet (body x)) -> quiet (for_loop body items).
Proof.
  intros Hb. induction items as [|x t IH]; cbn [for_loop]; [apply quiet_ret|].
  apply quiet_bind; [apply Hb | intro; apply IH].
Qed.

Lemma quiet_import_tables names : quiet (import_tables names).
Proof.
  unfold import_tables. apply quiet_for_loop. intros []; try apply quiet_ret.
  apply quiet_bind_name.
Qed.

Lemma propagates_quiet {A} st st' (r : result A) :
  log st' = log st -> db st' = db st -> propagates st st' r.
Proof. intros Hl Hd. exists []. split; [exact Hl | exact Hd]. Qed.

Lemma propagates_trans {A B} st st1 st2 (a : A) (r : result B) :
  propagates st st1 (Ok a) -> propagates st1 st2 r -> propagates st st2 r.
Proof.
  intros (n1 & L1 & H1) (n2 & L2 & H2). exists (n2 ++ n1). split.
  - rewrite L2, L1. apply app_assoc.
  - assert (Hok : Forall (fun e => failure_of e = None) n1).
    { destruct n1 as [|ev o1]; [constructor|]. destruct H1 as (_ & Ho & Hf).
      constructor; [|exact Ho].
      destruct (failure_of ev) as [e|] eqn:E; [|reflexivity].
      specialize (Hf e eq_refl). discriminate. }
    destruct n2 as [|ev2 o2]; cbn [app].
    + destruct n1 as [|ev o1]; [congruence|].
      destruct H1 as (Hd & Ho & Hf). split; [congruence|]. split; [exact Ho|].
      intros e He. specialize (Hf e He). discriminate.
    + destruct H2 as (Hd & Ho & Hf). split; [exact Hd|]. split; [|exact Hf].
      apply Forall_app. split; assumption.
Qed.

Lemma propagates_cast {A B} st st1 e :
  @propagates A st st1 (Raise e) -> @propagates B st st1 (Raise e).
Proof.
  intros (n & L & H). exists n. split; [exact L|].
  destruct n as [|ev o]; [exact H|]. destruct H as (Hd & Ho & Hf).
  repeat split; auto. intros e' He. specialize (Hf e' He). congruence.
Qed.

Lemma faithful_quiet {A} (m : M A) : quiet m -> faithful m.
Proof. intros Hq st st' r H. apply Hq in H. destruct H. apply propagates_quiet; auto. Qed.

Lemma faithful_bind {A B} (m : M A) (k : A -> M B) :
  faithful m -> (forall a, faithful (k a)) -> faithful (bind m k).
Proof.
  intros Hm Hk st st' r. unfold bind.
  destruct (m st) as [st1 [a|e]] eqn:E; intro H.
  - eapply propagates_trans; [exact (Hm _ _ _ E) | exact (Hk _ _ _ _ H)].
  - injection H as <- <-. apply Hm in E. exact (propagates_cast _ _ _ E).
Qed.

Lemma faithful_interact d fn args kw r : faithful (interact d fn args kw r).
Proof.
  intros st st' r'. unfold interact, bind.
  destruct r as [x|e]; cbn [lift_res ret raise].
  - destruct (unpackM x _) as [st2 r2] eqn:E. intro H. injection H as <- <-.
    apply quiet_unpackM in E. cbn [log db] in E. destruct E as [El Ed].
    eexists [_]. split; [exact El|]. cbn. split; [exact Ed|]. split; [constructor|].
    unfold failure_of; cbn. discriminate.
  - intro H. injection H as <- <-.
    eexists [_]. split; [reflexivity|]. cbn. split; [reflexivity|]. split; [constructor|].
    unfold failure_of; cbn. congruence.
Qed.

Section Faithful.
Variable sch : schema.
Variable oracle :
  string -> list dval -> list (string * dval) -> database -> database * result dval.
Variable fmt : dval -> string -> string.

Lemma faithful_external fn args kw : faithful (external oracle fn args kw).
Proof.
  unfold external. apply faithful_bind; [apply faithful_quiet, quiet_get_db | intro d].
  destruct (oracle fn args kw d). apply faithful_interact.
Qed.

Ltac faithful_leaf :=
  first
    [ apply faithful_interact
    | apply faithful_external
    | apply faithful_quiet;
      first [ apply quiet_ret | apply quiet_raise | apply quiet_get_db
            | apply quiet_unpackM | apply quiet_packM | apply quiet_new_obj
            | apply quiet_lift_opt | apply quiet_items_of ] ].

Lemma faithful_call_method recv m args kwargs :
  faithful (call_method sch oracle recv m args kwargs).
Proof.
  unfold call_method.
  apply faithful_bind; [apply faithful_quiet, quiet_mapM; intro; apply quiet_packM | intro dargs].
  apply faithful_bind.
  { apply faithful_quiet, quiet_mapM. intro.
    apply quiet_bind; [apply quiet_packM | intro; apply quiet_ret]. }
  intro dkw.
  destruct recv as [ | | | | | l | | t restr p | c payload | name | ];
    try faithful_leaf.
  - (* a reference *)
    destruct (String.eqb m "tolist"); [|faithful_leaf].
    apply faithful_quiet. apply quiet_bind; [apply quiet_packM | intro; apply quiet_unpackM].
  - (* a table expression *)
    destruct (String.eqb m "fetch").
    { apply faithful_bind; [faithful_leaf | intro; faithful_leaf]. }
    destruct (String.eqb m "fetch1").
    { apply faithful_bind; [faithful_leaf | intro; faithful_leaf]. }
    destruct (String.eqb m "insert1").
    { destruct dargs as [|row [|]]; try faithful_leaf.
      apply faithful_bind; [faithful_leaf | intro d].
      destruct (insert1 sch d t row _); faithful_leaf. }
    destruct (String.eqb m "proj"); [faithful_leaf|].
    destruct (is_class_name m); [|faithful_leaf].
    destruct (mem m _); faithful_leaf.
  - (* a module *)
    destruct (String.eqb name "numpy").
    + destruct (String.eqb m "copy").
      { destruct dargs as [|d [|]]; try faithful_leaf; destruct d; faithful_leaf. }
      destruct (String.eqb m "int"); [|faithful_leaf].
      destruct dargs as [|d [|]]; try faithful_leaf; destruct d; try faithful_leaf.
      apply faithful_bind; [faithful_leaf | intro; faithful_leaf].
    + destruct (String.eqb name "warnings"); [|faithful_leaf].
      destruct (String.eqb m "simplefilter"); faithful_leaf.
Qed.

Lemma faithful_call_value f args : faithful (call_value f args).
Proof.
  unfold call_value.
  destruct f as [ | | | | | | | t restr p | | | name ]; try faithful_leaf.
  - destruct args; faithful_leaf.
  - destruct (String.eqb name "print").
    { apply faithful_bind;
        [apply faithful_quiet, quiet_mapM; intro; apply quiet_packM | intro].
      apply faithful_bind; [faithful_leaf | intro; faithful_leaf]. }
    destruct (String.eqb name "dict"); [destruct args; faithful_leaf|].
    destruct (String.eqb name "zip"); [|faithful_leaf].
    apply faithful_quiet. apply quiet_bind; [|intro; apply quiet_ret].
    apply quiet_mapM. intro. apply quiet_items_of.
Qed.

Lemma faithful_attribute v a : faithful (attribute sch oracle v a).
Proof.
  unfold attribute. destruct v; try faithful_leaf.
  destruct (mem a _); faithful_leaf.
Qed.

Lemma faithful_mapM {A B} (f : A -> M B) l :
  Forall (fun x => faithful (f x)) l -> faithful (mapM f l).
Proof.
  induction 1 as [|x t Hx Ht IH]; cbn [mapM]; [apply faithful_quiet, quiet_ret|].
  apply faithful_bind; [exact Hx | intro].
  apply faithful_bind; [exact IH | intro]. apply faithful_quiet, quiet_ret.
Qed.

Lemma faithful_comp_loop body items :
  (forall x, faithful (body x)) -> faithful (comp_loop body items).
Proof.
  intros Hb. induction items as [|x t IH]; cbn [comp_loop];
    [apply faithful_quiet, quiet_ret|].
  apply faithful_bind; [apply Hb | intro].
  apply faithful_bind; [exact IH | intro]. apply faithful_quiet, quiet_ret.
Qed.

Lemma faithful_for_loop (body : value -> M unit) items :
  (forall x, faithful (body x)) -> faithful (for_loop body items).
Proof.
  intros Hb. induction items as [|x t IH]; cbn [for_loop];
    [apply faithful_quiet, quiet_ret|].
  apply faithful_bind; [apply Hb | intro; exact IH].
Qed.

Lemma faithful_scoped {A} (m : M A) : faithful m -> faithful (scoped m).
Proof.
  intros Hm st st' r. unfold scoped. destruct (m st) as [st1 r1] eqn:E.
  intro H. injection H as <- <-. apply Hm in E. exact E.
Qed.

(** Evaluating an expression hides no failure of the outside. *)
Lemma faithful_eval e : faithful (eval sch oracle fmt e).
Proof.
  enough (H : faithful (eval sch oracle fmt e)
              /\ forall r m, e = EAttr r m -> faithful (eval sch oracle fmt r))
    by apply H.
  induction e using expr_nested_ind; (split; [|try discriminate]);
    cbn [eval]; try (apply faithful_quiet; first [apply quiet_ret | apply quiet_lookup_name]).
  - apply faithful_bind; [apply IHe | intro; apply faithful_attribute].
  - intros r m E. injection E as <- <-. apply IHe.
  - (* a call *)
    assert (Hargs : faithful (mapM (eval sch oracle fmt) args)).
    { apply faithful_mapM. eapply Forall_impl; [|exact H]. intros a Ha. apply Ha. }
    assert (Hkw : faithful
                    (mapM (fun kv : string * expr =>
                             let (k, e0) := kv in
                             bind (eval sch oracle fmt e0) (fun v => ret (k, v))) kw)).
    { apply faithful_mapM. eapply Forall_impl; [|exact H0]. intros [k a] Ha.
      apply faithful_bind; [apply Ha | intro; apply faithful_quiet, quiet_ret]. }
    destruct IHe as [IHf IHr].
    destruct e;
      try (apply faithful_bind; [exact IHf | intro];
           apply faithful_bind; [exact Hargs | intro]; apply faithful_call_value).
    apply faithful_bind; [exact (IHr _ _ eq_refl) | intro].
    apply faithful_bind; [exact Hargs | intro].
    apply faithful_bind; [exact Hkw | intro]. apply faithful_call_method.
  - apply faithful_bind; [apply IHe1 | intro].
    apply faithful_bind; [apply IHe2 | intro]. apply faithful_quiet, quiet_subscript.
  - apply faithful_bind; [apply IHe1 | intro].
    apply faithful_bind; [apply IHe2 | intro]. apply faithful_quiet, quiet_binary.
  - apply faithful_bind; [apply IHe1 | intro].
    apply faithful_bind; [apply IHe2 | intro].
    apply faithful_quiet. apply quiet_bind; [apply quiet_contains | intro; apply quiet_ret].
  - (* a dict display *)
    apply faithful_bind; [|intro; apply faithful_quiet, quiet_new_obj].
    apply faithful_mapM. eapply Forall_impl; [|exact H]. intros [k v] [Hk Hv].
    apply faithful_bind; [apply Hk | intro].
    apply faithful_bind; [apply faithful_quiet, quiet_dict_key | intro].
    apply faithful_bind; [apply Hv | intro]. apply faithful_quiet, quiet_ret.
  - apply faithful_bind; [|intro; apply faithful_quiet, quiet_new_obj].
    apply faithful_mapM. eapply Forall_impl; [|exact H]. intros a Ha. apply Ha.
  - (* a formatted string *)
    apply faithful_bind; [|intro; apply faithful_quiet, quiet_ret].
    apply faithful_mapM. eapply Forall_impl; [|exact H]. intros [s|[a spec]] Ha.
    + apply faithful_quiet, quiet_ret.
    + apply faithful_bind; [apply Ha | intro].
      apply faithful_bind; [apply faithful_quiet, quiet_packM | intro].
      apply faithful_quiet, quiet_ret.
  - (* a comprehension *)
    apply faithful_bind; [apply IHe2 | intro].
    apply faithful_bind; [apply faithful_quiet, quiet_items_of | intro].
    apply faithful_bind; [|intro; apply faithful_quiet, quiet_new_obj].
    apply faithful_scoped, faithful_comp_loop. intro item.
    apply faithful_bind; [apply faithful_quiet, quiet_bind_targets | intro].
    apply faithful_bind.
    + destruct cond as [c|]; [|apply faithful_quiet, quiet_ret].
      apply faithful_bind; [apply (H c eq_refl) | intro].
      apply faithful_quiet, quiet_truthy.
    + intros []; [|apply faithful_quiet, quiet_ret].
      apply faithful_bind; [apply IHe1 | intro]. apply faithful_quiet, quiet_ret.
Qed.

Lemma exec_block_eq ss :
  (fix go (ss : list stmt) : M unit :=
     match ss with
     | [] => ret tt
     | s :: t => bind (exec sch oracle fmt s) (fun _ => go t)
     end) ss = exec_block sch oracle fmt ss.
Proof. induction ss as [|s t IH]; cbn; [reflexivity | rewrite IH; reflexivity]. Qed.

Lemma faithful_exec_block ss :
  Forall (fun s => faithful (exec sch oracle fmt s)) ss ->
  faithful (exec_block sch oracle fmt ss).
Proof.
  induction 1 as [|s t Hs Ht IH]; cbn [exec_block];
    [apply faithful_quiet, quiet_ret|].
  apply faithful_bind; [exact Hs | intro; exact IH].
Qed.

Lemma handler_free_inv s :
  handler_free s = true ->
  match s with
  | SIf _ body orelse =>
      Forall (fun s' => handler_free s' = true) body
      /\ Forall (fun s' => handler_free s' = true) orelse
  | SFor _ _ body => Forall (fun s' => handler_free s' = true) body
  | STry _ _ => False
  | _ => True
  end.
Proof.
  unfold handler_free. intro H.
  assert (Hall : forall l, forallb (fun s' => negb (has_shape Handler s'))
                             (flat_map substmts l) = true ->
                           Forall (fun s' => forallb (fun s' => negb (has_shape Handler s'))
                                                     (substmts s') = true) l).
  { induction l as [|a l IH]; intro Hl; constructor;
      cbn [flat_map] in Hl; rewrite forallb_app in Hl;
      apply andb_prop in Hl; destruct Hl; auto. }
  destruct s; try exact I; cbn [substmts forallb] in H;
    apply andb_prop in H; destruct H as [H0 H].
  - rewrite forallb_app in H. apply andb_prop in H. destruct H. split; apply Hall; auto.
  - apply Hall; auto.
  - discriminate.
Qed.

(** A statement that holds no [try] hides no failure either. *)
Lemma faithful_exec s :
  handler_free s = true -> faithful (exec sch oracle fmt s).
Proof.
  induction s using stmt_nested_ind; intro Hf; apply handler_free_inv in Hf;
    cbn [exec].
  - apply faithful_quiet, quiet_bind_name.
  - apply faithful_quiet, quiet_import_tables.
  - destruct t.
    + apply faithful_bind; [apply faithful_eval | intro].
      apply faithful_quiet, quiet_bind_name.
    + apply faithful_bind; [apply faithful_eval | intro].
      apply faithful_bind; [apply faithful_eval | intro].
      apply faithful_bind; [apply faithful_eval | intro].
      apply faithful_quiet, quiet_store_subscript.
  - apply faithful_bind; [apply faithful_eval | intro]. apply faithful_quiet, quiet_ret.
  - destruct Hf as [Hb Ho].
    apply faithful_bind; [apply faithful_eval | intro].
    apply faithful_bind; [apply faithful_quiet, quiet_truthy | intros []];
      rewrite exec_block_eq; apply faithful_exec_block.
    + rewrite Forall_forall in *. intros s Hs. apply H; auto.
    + rewrite Forall_forall in *. intros s Hs. apply H0; auto.
  - apply faithful_bind; [apply faithful_eval | intro].
    apply faithful_bind; [apply faithful_quiet, quiet_items_of | intro].
    apply faithful_for_loop. intro item.
    apply faithful_bind; [apply faithful_quiet, quiet_bind_targets | intro].
    rewrite exec_block_eq. apply faithful_exec_block.
    rewrite Forall_forall in *. intros s Hs. apply H; auto.
  - destruct Hf.
Qed.

Lemma faithful_run_cell (c : cell) :
  forallb (fun ls => handler_free (snd ls)) c = true ->
  faithful (run_cell sch oracle fmt c).
Proof.
  intro H. unfold run_cell. apply faithful_exec_block.
  rewrite forallb_forall in H. apply Forall_forall. intros s Hs.
  apply in_map_iff in Hs. destruct Hs as ([ln s'] & <- & Hin).
  apply faithful_exec. exact (H _ Hin).
Qed.

Lemma faithful_run_cells (cs : list cell) :
  forallb (fun c => forallb (fun ls => handler_free (snd ls)) c) cs = true ->
  faithful (run_cells sch oracle fmt cs).
Proof.
  induction cs as [|c t IH]; cbn [run_cells forallb]; intro H;
    [apply faithful_quiet, quiet_ret|].
  apply andb_prop in H. destruct H as [Hc Ht].
  apply faithful_bind; [apply faithful_run_cell, Hc | intro; apply IH, Ht].
Qed.

End Faithful.

(* ===================================================================== *)
(** ** The shape of the notebook *)

(** C1, as stated, fails: seven statements of the notebook are neither a
    constant or key assignment nor a direct call (nor an import, a displayed
    expression or an entry taken from fetched data).  Line 88 is an [if] on a
    membership test, line 410 a comprehension that filters by one, and lines
    143, 153, 155, 183 and 330 compute with [+], [-], [*] or [/]. *)
Lemma C1_counterexample :
  lines_where (fun s => negb (is_glue s)) = [88; 143; 153; 155; 183; 330; 410]
  /\ ~ (forall ln s, In (ln, s) statements -> is_glue s = true).
Proof.
  split; [vm_compute; reflexivity|].
  intro H.
  assert (E : forallb (fun ls => is_glue (snd ls)) statements = true).
  { apply forallb_forall. intros [ln s] Hin. exact (H ln s Hin). }
  vm_compute in E. discriminate.
Qed.

(** C1, amended: of the 94 statements, 87 are glue: 7 imports, 24 assignments
    of a literal (to a name or to an entry of a dict), 5 assignments of a name
    (to a name or to an entry of a key), 3 assignments of an entry of fetched
    data, 38 calls (a statement of their own, or assigned to a name) and 10
    displayed expressions; none of these holds arithmetic, a membership test
    or a comprehension, and every call starts from an imported table or
    module, from the result of an earlier call, or from the builtins [dict]
    and [print].  The other seven hold logic written in the notebook: the
    [if] of line 88, the filtered comprehension of line 410, which is also the
    only thing that iterates, and the arithmetic of lines 143, 153, 155, 183
    and 330.  No statement, at any depth, is a [for] or a [try]. *)
Theorem C1_glue_except_seven_lines :
  length statements = 94
  /\ lines_where (has_kind KImport) = [41; 42; 43; 44; 46; 49; 403]
  /\ lines_where (has_kind KConstant)
     = [68; 69; 70; 99; 140; 211; 233; 234; 235; 236; 237; 238; 303; 316;
        318; 319; 321; 322; 323; 325; 327; 328; 331; 341]
  /\ lines_where (has_kind KKey) = [232; 240; 365; 366; 367]
  /\ lines_where (has_kind KEntry) = [152; 314; 406]
  /\ lines_where (has_kind KCall)
     = [47; 48; 76; 77; 78; 79; 98; 115; 141; 154; 163; 181; 192; 200; 201;
        203; 212; 222; 231; 249; 259; 276; 295; 296; 304; 306; 349; 353;
        364; 368; 378; 395; 404; 405; 407; 409; 411; 412]
  /\ lines_where (has_kind KDisplay)
     = [123; 132; 173; 250; 267; 282; 332; 354; 369; 386]
  /\ lines_where (has_kind KLocal) = [88; 143; 153; 155; 183; 330; 410]
  /\ lines_where (has_shape Branch) = [88]
  /\ lines_where (fun s => existsb is_membership (exprs_of s)) = [88; 410]
  /\ lines_where filters = [410]
  /\ lines_where iterates = [410]
  /\ lines_where (fun s => existsb is_arith (exprs_of s)) = [143; 153; 155; 183; 330]
  /\ lines_where (fun s => negb (no_loop_no_handler s)) = []
  /\ forallb (fun x => existsb (String.eqb x)
                         (imported_names ++ call_results ++ ["dict"; "print"]))
             call_roots = true.
Proof. vm_compute. repeat split. Qed.

(* ===================================================================== *)
(** ** Failures *)

(** C7: the notebook holds no [try] and no loop, so whatever cells of it are
    run, from whatever state, a failure of a call to the outside is the
    outcome of the run, no call is made after it, and the database is as the
    failing call left it. *)
Theorem C7_failures_propagate :
  forallb (fun ls => no_loop_no_handler (snd ls)) statements = true
  /\ forall sch oracle fmt (cs : list cell) st st' r,
       incl cs notebook ->
       run_cells sch oracle fmt cs st = (st', r) ->
       propagates st st' r.
Proof.
  split; [vm_compute; reflexivity|].
  intros sch oracle fmt cs st st' r Hcs H.
  eapply faithful_run_cells; [|exact H].
  apply forallb_forall. intros c Hc. apply Hcs in Hc.
  assert (E : forallb (fun c => forallb (fun ls => handler_free (snd ls)) c) notebook
              = true) by (vm_compute; reflexivity).
  rewrite forallb_forall in E. exact (E c Hc).
Qed.

Lemma C7_witness :
  propagates (start Demo.demo_db)
    (fst (run_cells Demo.demo_schema Demo.failing_oracle Demo.demo_format notebook
            (start Demo.demo_db)))
    (snd (run_cells Demo.demo_schema Demo.failing_oracle Demo.demo_format notebook
            (start Demo.demo_db))).
Proof.
  apply (proj2 C7_failures_propagate Demo.demo_schema Demo.failing_oracle
               Demo.demo_format notebook).
  - apply incl_refl.
  - apply surjective_pairing.
Defined.

(* ===================================================================== *)
(** ** Running statements one at a time *)

Arguments bind {A B} m k st /.
Arguments ret {A} a st /.
Arguments raise {A} e st /.
Arguments lift_opt {A} o e /.
Arguments lift_res {A} r /.
Arguments get_env st /.
Arguments set_env e st /.
Arguments get_heap st /.
Arguments set_heap h st /.
Arguments get_db st /.
Arguments lookup_name x /.
Arguments bind_name x v /.
Arguments new_obj o /.
Arguments deref l /.
Arguments packM v /.
Arguments unpackM d /.
Arguments interact d fn args kw r /.
Arguments subscript c i /.
Arguments store_subscript c i v /.
Arguments binary op a b /.
Arguments arith op a b /.
Arguments arith_int op a b /.
Arguments items_of v /.
Arguments contains c x /.
Arguments truthy v /.
Arguments bind_targets targets item /.
Arguments scoped {A} m st /.
Arguments external oracle fn args kw /.
Arguments call_method sch oracle recv m args kwargs /.
Arguments call_value f args /.
Arguments attribute sch oracle v a /.
Arguments dict_key v /.
Arguments import_tables names /.
Arguments seq_get vs z /.
Arguments freeze n h v : simpl nomatch.
Arguments thaw_at r o d : simpl nomatch.
Arguments Pos.to_nat x : simpl nomatch.
Arguments fetch : simpl never.
Arguments fetch1 : simpl never.
Arguments insert1 : simpl never.

Section Steps.
Variable sch : schema.
Variable oracle :
  string -> list dval -> list (string * dval) -> database -> database * result dval.
Variable fmt : dval -> string -> string.

Lemma exec_block_cons_ok s t st st' :
  exec_block sch oracle fmt (s :: t) st = (st', Ok tt) ->
  exists st1, exec sch oracle fmt s st = (st1, Ok tt)
              /\ exec_block sch oracle fmt t st1 = (st', Ok tt).
Proof.
  cbn [exec_block]. unfold bind.
  destruct (exec sch oracle fmt s st) as [st1 [[]|e]]; intro H.
  - exists st1; auto.
  - discriminate.
Qed.

Lemma exec_block_nil_ok st st' :
  exec_block sch oracle fmt [] st = (st', Ok tt) -> st' = st.
Proof. cbn. congruence. Qed.

Lemma run_cells_cons_ok c t st st' :
  run_cells sch oracle fmt (c :: t) st = (st', Ok tt) ->
  exists st1, exec_block sch oracle fmt (map snd c) st = (st1, Ok tt)
              /\ run_cells sch oracle fmt t st1 = (st', Ok tt).
Proof.
  cbn [run_cells]. unfold bind, run_cell.
  destruct (exec_block sch oracle fmt (map snd c) st) as [st1 [[]|e]]; intro H.
  - exists st1; auto.
  - discriminate.
Qed.

Lemma run_cells_nil_ok st st' :
  run_cells sch oracle fmt [] st = (st', Ok tt) -> st' = st.
Proof. cbn. congruence. Qed.

Lemma run_cells_app cs1 cs2 st :
  run_cells sch oracle fmt (cs1 ++ cs2) st
  = match run_cells sch oracle fmt cs1 st with
    | (st1, Ok _) => run_cells sch oracle fmt cs2 st1
    | (st1, Raise e) => (st1, Raise e)
    end.
Proof.
  revert st; induction cs1 as [|c t IH]; intro st; [reflexivity|].
  cbn [app run_cells]. unfold bind.
  destruct (run_cell sch oracle fmt c st) as [st1 [[]|e]]; [apply IH | reflexivity].
Qed.
End Steps.

(** What a fetch answers with, by the way it is asked. *)
Lemma fetch_column sch d t restr p a x :
  fetch sch d t restr p [DStr a] = Ok x ->
  exists rs, query_rows sch d t restr p = Some rs
             /\ map_opt (assoc a) rs = Some (match x with DArr c => c | _ => [] end)
             /\ exists col, x = DArr col.
Proof.
  unfold fetch, column. cbn [attr_names map_opt].
  destruct (query_rows sch d t restr p) as [rs|]; [|discriminate].
  destruct (map_opt (assoc a) rs) as [c|] eqn:E; cbn; [|discriminate].
  intro H. injection H as <-. exists rs. repeat split; eauto.
Qed.

Lemma fetch_columns2 sch d t restr p a b x :
  fetch sch d t restr p [DStr a; DStr b] = Ok x ->
  exists rs ca cb,
    query_rows sch d t restr p = Some rs
    /\ map_opt (assoc a) rs = Some ca /\ map_opt (assoc b) rs = Some cb
    /\ x = DList [DArr ca; DArr cb].
Proof.
  unfold fetch, column. cbn [attr_names map_opt].
  destruct (query_rows sch d t restr p) as [rs|]; [|discriminate].
  destruct (map_opt (assoc a) rs) as [ca|] eqn:Ea; cbn; [|discriminate].
  destruct (map_opt (assoc b) rs) as [cb|] eqn:Eb; cbn; [|discriminate].
  intro H. injection H as <-. exists rs, ca, cb. auto.
Qed.

Lemma fetch1_row sch d t restr p x :
  fetch1 sch d t restr p [] = Ok x ->
  exists r, query_rows sch d t restr p = Some [r] /\ x = DDict r.
Proof.
  unfold fetch1. cbn [attr_names map_opt].
  destruct (query_rows sch d t restr p) as [[|r [|]]|]; try discriminate.
  intro H. injection H as <-. eauto.
Qed.

Lemma fetch1_key sch d t restr p x :
  fetch1 sch d t restr p [DStr "KEY"] = Ok x ->
  exists r k, query_rows sch d t restr p = Some [r]
              /\ project (primary_key sch t) r = Some k /\ x = DDict k.
Proof.
  unfold fetch1. cbn [attr_names map_opt].
  destruct (query_rows sch d t restr p) as [[|r [|]]|]; try discriminate.
  cbn. destruct (project (primary_key sch t) r) as [k|] eqn:E; [|discriminate].
  intro H. injection H as <-. eauto.
Qed.

Ltac shape E :=
  first
    [ let rs := fresh "rs" in let col := fresh "col" in
      let Hq := fresh "Hq" in let Hc := fresh "Hcol" in
      apply fetch_column in E; destruct E as (rs & Hq & Hc & col & ->); cbn [fst snd] in Hc
    | let rs := fresh "rs" in let ca := fresh "ca" in let cb := fresh "cb" in
      let Hq := fresh "Hq" in let Ha := fresh "Hca" in let Hb := fresh "Hcb" in
      apply fetch_columns2 in E; destruct E as (rs & ca & cb & Hq & Ha & Hb & ->)
    | let r := fresh "row" in let Hq := fresh "Hq" in
      apply fetch1_row in E; destruct E as (r & Hq & ->)
    | let r := fresh "row" in let k := fresh "key" in
      let Hq := fresh "Hq" in let Hk := fresh "Hkey" in
      apply fetch1_key in E; destruct E as (r & k & Hq & Hk & ->) ].

(** The innermost term a computation is waiting for. *)
Ltac inner x :=
  lazymatch x with
  | fst ?y => x
  | snd ?y => x
  | context [match ?y with _ => _ end] => inner y
  | _ => x
  end.

Ltac finish_stmt Hs :=
  match type of Hs with
  | (?a, Ok tt) = (?b, Ok tt) =>
      let E := fresh in assert (E : b = a) by congruence; clear Hs; subst b
  end.

Ltac refold Hs := rewrite ?thaw_at_arr, ?thaw_at_list, ?thaw_at_dict in Hs.

Ltac split_on x Hs :=
  lazymatch x with
  | fst (thaw_at _ _ ?a) => is_var a; destruct a; try discriminate Hs; refold Hs
  | _ =>
      first
        [ is_var x; destruct x
        | let E := fresh "E" in
          destruct x eqn:E; try discriminate Hs;
          try (cbn in Hs; shape E; refold Hs) ]
  end.

(** Run the statement of [Hs] as far as it goes, splitting on what is not
    known; only the branches that end well remain. *)
Ltac reduce_in Hs := cbn in Hs.

Ltac crunch Hs :=
  reduce_in Hs;
  first
    [ finish_stmt Hs
    | discriminate Hs
    | match type of Hs with
      | ?l = _ =>
          let x := inner l in
          split_on x Hs; try discriminate Hs; crunch Hs
      end ].

Ltac peel H Hs :=
  let st := fresh "st" in
  apply exec_block_cons_ok in H; destruct H as (st & Hs & H).

Ltac next_stmt H :=
  let Hs := fresh "Hs" in
  peel H Hs; crunch Hs.

Ltac end_cell H := apply exec_block_nil_ok in H; subst.

Ltac next_cell H Hc :=
  let st := fresh "st" in
  apply run_cells_cons_ok in H; destruct H as (st & Hc & H);
  cbn [map snd] in Hc.

Ltac run_cell_of H :=
  let Hc := fresh "Hc" in
  next_cell H Hc; repeat (next_stmt Hc); end_cell Hc.

Ltac crunch_by hook Hs :=
  reduce_in Hs; repeat (progress (hook Hs); reduce_in Hs);
  first
    [ finish_stmt Hs
    | discriminate Hs
    | match type of Hs with
      | ?l = _ =>
          let x := inner l in
          split_on x Hs; try discriminate Hs; crunch_by hook Hs
      end ].




(** Packing what was just unpacked. *)
Ltac held_here := intros ? ? Hi; exact Hi.

Ltac repack Hs := rewrite pack_thaw_at in Hs by held_here.

Ltac next_stmt_by hook Hc :=
  let Hs := fresh "Hs" in
  peel Hc Hs; crunch_by hook Hs.

(** Packing a dict whose entries are known: [side] finds the object a
    reference leads to, [held] shows that unpacked objects are still there. *)
Ltac pack_items side held :=
  lazymatch goal with
  | |- freeze_items _ _ [] = _ => reflexivity
  | |- freeze_items _ _ (_ :: _) = _ =>
      eapply freeze_items_cons_ok; [pack_value side held | pack_items side held]
  | |- freeze_items _ _ (assoc_set _ _ _) = _ =>
      eapply freeze_items_assoc_set; [pack_value side held | pack_items side held]
  | |- freeze_items _ _ (fst (thaw_items _ _ _)) = _ =>
      apply freeze_items_thaw_ok; [held | unfold freeze_fuel; lia]
  end
with pack_value side held :=
  lazymatch goal with
  | |- freeze _ _ (VRef _) = _ =>
      eapply freeze_dict_ok; [side | pack_items side held]
  | |- _ => reflexivity
  end.

(** [E] says that a packing gave [d]; what it gave is [expected]. *)
Ltac settle E expected side held :=
  match type of E with
  | ?p = Some ?d =>
      let X := fresh in
      assert (X : p = Some expected)
        by (unfold pack, freeze_fuel; pack_value side held);
      rewrite X in E; clear X; injection E as <-
  end.

(** Keep the log of the state of [H] out of the way. *)
Ltac tuck H :=
  match type of H with
  | context [{| env := _; heap := _; db := _; log := ?l |}] =>
      let lg := fresh "lg" in
      let E := fresh "Elog" in
      remember l as lg eqn:E in H; apply (f_equal (@Some (list event))) in E
  end.

Ltac untuck :=
  repeat match goal with
         | E : Some ?x = Some _ |- _ =>
             match type of x with
             | list event => injection E as ->
             end
         end.

Ltac cell_by hook H :=
  let Hc := fresh "Hc" in
  next_cell H Hc; repeat (next_stmt_by hook Hc); end_cell Hc; tuck H.


(* ===================================================================== *)
(** ** Inserting a row that is already there *)

(** With [skip_duplicates], [insert1] of a row whose key is stored answers
    with the database as it was. *)
Lemma insert1_skip_present sch d t arg r0 k :
  as_row sch t arg = Ok r0 ->
  row_key sch t r0 = Some k ->
  key_present sch t k (d t) = true ->
  insert1 sch d t arg true = Ok d.
Proof. unfold insert1. intros -> -> ->. reflexivity. Qed.

(** C2: each of the seven [insert1] calls of the notebook (lines 78, 79, 163,
    212, 249, 349, 368) is a statement of its own that passes
    [skip_duplicates=True]; and such a statement, run when the key of its row
    is already in the table, ends well and leaves the database as it was. *)
Theorem C2_insert1_skips_duplicates :
  map fst insert1_statements = [78; 79; 163; 212; 249; 349; 368]
  /\ map fst (calls "insert1") = [78; 79; 163; 212; 249; 349; 368]
  /\ forallb (fun ls => is_skipping_insert (snd ls)) insert1_statements = true
  /\ forall sch oracle fmt tbl rowe st st1 st2 t restr p v row r0 k,
       eval sch oracle fmt tbl st = (st1, Ok (VQuery t restr p)) ->
       eval sch oracle fmt rowe st1 = (st2, Ok v) ->
       pack (heap st2) v = Some row ->
       as_row sch t row = Ok r0 ->
       row_key sch t r0 = Some k ->
       key_present sch t k (db st2 t) = true ->
       exists st',
         exec sch oracle fmt
           (SExpr (ECall (EAttr tbl "insert1") [rowe] skip_dup)) st = (st', Ok tt)
         /\ db st' = db st2
         /\ env st' = env st2.
Proof.
  split; [vm_compute; reflexivity|]. split; [vm_compute; reflexivity|].
  split; [vm_compute; reflexivity|].
  intros sch oracle fmt tbl rowe st st1 st2 t restr p v row r0 k Ht Hr Hp Ha Hk Hin.
  cbn [exec eval skip_dup mapM bind ret]. rewrite Ht.
  cbn [bind ret]. rewrite Hr.
  unfold call_method.
  cbn [bind ret mapM packM get_heap lift_opt fst snd heap]. rewrite Hp.
  cbn [bind ret lift_opt String.eqb Ascii.eqb Bool.eqb get_db kwarg_bool assoc db
       fst snd].
  assert (E : pack (heap st2) (VBool true) = Some (DBool true)) by reflexivity.
  rewrite E.
  cbn [bind ret lift_opt String.eqb Ascii.eqb Bool.eqb get_db kwarg_bool assoc db
       fst snd].
  rewrite (insert1_skip_present sch (db st2) t row r0 k Ha Hk Hin).
  cbn [interact bind ret lift_res unpackM get_heap set_heap heap db env].
  eexists. split; [reflexivity|]. split; reflexivity.
Qed.

Lemma C2_witness :
  exists st',
    exec Demo.demo_schema Demo.demo_oracle Demo.demo_format
      (SExpr (ECall (EAttr $"SortInterval" "insert1") [Demo.sort_interval_row] skip_dup))
      Demo.sort_interval_stored = (st', Ok tt)
    /\ db st' = db (fst (eval Demo.demo_schema Demo.demo_oracle Demo.demo_format
                           Demo.sort_interval_row Demo.sort_interval_stored))
    /\ env st' = env (fst (eval Demo.demo_schema Demo.demo_oracle Demo.demo_format
                             Demo.sort_interval_row Demo.sort_interval_stored)).
Proof.
  eapply (proj2 (proj2 (proj2 C2_insert1_skips_duplicates))
            Demo.demo_schema Demo.demo_oracle Demo.demo_format
            $"SortInterval" Demo.sort_interval_row Demo.sort_interval_stored
            Demo.sort_interval_stored
            (fst (eval Demo.demo_schema Demo.demo_oracle Demo.demo_format
                    Demo.sort_interval_row Demo.sort_interval_stored))
            "SortInterval" [] false).
  - vm_compute. reflexivity.
  - vm_compute. reflexivity.
  - vm_compute. reflexivity.
  - vm_compute. reflexivity.
  - vm_compute. reflexivity.
  - vm_compute. reflexivity.
Defined.

(* ===================================================================== *)
(** ** The cells before the interval list *)

Lemma since_app st st' new : log st' = new ++ log st -> since st st' = rev new.
Proof.
  intro H. unfold since. rewrite H, length_app, Nat.add_sub.
  rewrite firstn_app, Nat.sub_diag, firstn_all. cbn. rewrite app_nil_r. reflexivity.
Qed.

Lemma pack_array_shape g l vs d :
  heap_get g l = Some (OArr vs) -> pack g (VRef l) = Some d -> exists ds, d = DArr ds.
Proof.
  unfold pack, freeze_fuel. intros Hg.
  change (3 + heap_size g) with (S (2 + heap_size g)). rewrite freeze_ref, Hg.
  destruct (map_opt _ vs); cbn; intro H; inversion H; eauto.
Qed.

Section BeforeInterval.
Variable sch : schema.
Variable oracle :
  string -> list dval -> list (string * dval) -> database -> database * result dval.
Variable fmt : dval -> string -> string.

(** Whatever the outside answers, the cells up to line 132, when they go
    through, leave the same names bound and twelve blocks on the heap. *)
Lemma run_before_interval d0 st1 :
  run_cells sch oracle fmt cells_before_interval (start d0) = (st1, Ok tt) ->
  env st1 = Demo.env_before_interval /\ length (heap st1) = 12.
Proof.
  intros H. unfold cells_before_interval in H.
  do 3 run_cell_of H.
  rewrite freeze_thaw_seq in E0 by (lia || held_here). injection E0 as <-.
  do 4 run_cell_of H.
  apply run_cells_nil_ok in H. subst st1. split; reflexivity.
Qed.
End BeforeInterval.

(* ===================================================================== *)
(** ** The sort interval *)

Ltac blocks h :=
  repeat (destruct h as [|? h]; [discriminate|]); destruct h; [|discriminate].

Lemma db_set_same t rows d : db_set t rows d t = rows.
Proof. unfold db_set. rewrite String.eqb_refl. reflexivity. Qed.

Lemma db_set_other t t' rows d : String.eqb t' t = false -> db_set t rows d t' = d t'.
Proof. unfold db_set. intros ->. reflexivity. Qed.

(** An [insert1] of a row whose key is not stored appends the row. *)
Lemma insert1_fresh sch d t arg d' :
  stores_key sch t arg d = false ->
  insert1 sch d t arg true = Ok d' ->
  exists r, as_row sch t arg = Ok r /\ d' = db_set t (d t ++ [r]) d.
Proof.
  unfold stores_key, insert1.
  destruct (as_row sch t arg) as [r|e]; [|discriminate].
  destruct (row_key sch t r) as [k|]; [|discriminate].
  intros -> H. injection H as <-. eauto.
Qed.

Lemma as_row_dict sch t kvs r : as_row sch t (DDict kvs) = Ok r -> r = kvs.
Proof. cbn. destruct (forallb _ kvs); congruence. Qed.

(** A [fetch1] that the last row of the table satisfies answers from it. *)
Lemma fetch1_of_last sch d t old r restr a x v :
  d t = old ++ [r] ->
  forallb (satisfies r) restr = true ->
  String.eqb a "KEY" = false ->
  assoc a r = Some v ->
  fetch1 sch d t restr false [DStr a] = Ok x ->
  x = v.
Proof.
  intros Hd Hr Ha Hv. unfold fetch1, query_rows, restrict. rewrite Hd, filter_app.
  cbn [filter attr_names map_opt]. rewrite Hr.
  destruct (filter _ old) as [|r1 [|r2 l]]; cbn [app].
  - rewrite Ha, Hv. congruence.
  - discriminate.
  - discriminate.
Qed.

Section SortInterval.
Variable sch : schema.
Variable oracle :
  string -> list dval -> list (string * dval) -> database -> database * result dval.
Variable fmt : dval -> string -> string.

Lemma sort_interval_inserted d0 st1 st2 st3 a b rest :
  run_cells sch oracle fmt cells_before_interval (start d0) = (st1, Ok tt) ->
  fetch1 sch (db st1) "IntervalList" [interval_list_key] false [DStr "valid_times"]
    = Ok (DArr (DArr [DFloat a; DFloat b] :: rest)) ->
  run_cells sch oracle fmt [cell_interval_list] st1 = (st2, Ok tt) ->
  run_cells sch oracle fmt [cell_sort_interval; cell_sort_interval_insert] st2
    = (st3, Ok tt) ->
  rows_given "SortInterval" (since st2 st3) = [sort_interval_entry a]
  /\ observe sch oracle fmt (ESub $"interval_list" (EInt 0)) st3
     = Some (DArr [DFloat a; DFloat b])
  /\ observe sch oracle fmt $"sort_interval" st3
     = Some (DArr [DFloat a; DFloat (a + 180)]).
Proof.
  intros H1 Hf H2 H3.
  apply run_before_interval in H1. destruct H1 as [He Hh].
  destruct st1 as [e h d lg]. cbn [env heap db] in *. subst e.
  blocks h. unfold Demo.env_before_interval in H2. unfold interval_list_key in Hf.
  next_cell H2 Hc.
  next_stmt Hc.
  peel Hc Hs. cbn in Hs. rewrite Hf in Hs. crunch Hs.
  next_stmt Hc. end_cell Hc.
  apply run_cells_nil_ok in H2. subst st2.
  do 2 run_cell_of H3.
  apply run_cells_nil_ok in H3. subst st3.
  split; [|split].
  - erewrite (since_app _ _ [_]) by reflexivity. reflexivity.
  - reflexivity.
  - reflexivity.
Qed.
End SortInterval.

(** C4, as stated, fails for the sort interval.  In the demo the interval
    handed to [SortInterval.insert1] is [100, 280]; no call made up to then
    answered with it, or with anything that holds it: the library answered
    [100, 5500], and the notebook computed the end. *)
Lemma C4_counterexample :
  rows_given "SortInterval" Demo.trace_to_insert = [sort_interval_entry 100]
  /\ sort_interval_entry 100
     = DDict [ ("nwb_file_name", DStr "montague20200802_tutorial_.nwb");
               ("sort_interval_name", DStr "02_r1_first180");
               ("sort_interval", DArr [DFloat 100; DFloat 280]) ]
  /\ answered (DArr [DFloat 100; DFloat 280]) Demo.trace_to_insert = false
  /\ answered (DArr [DFloat 100; DFloat 5500]) Demo.trace_to_insert = true.
Proof. vm_compute. repeat split. Qed.

(** C4, amended: grouping the electrodes (line 115), populating the recording,
    workspace and sorting tables (259, 276, 378), the precalculation (395) and
    the visualisation (407) are one call each into the library, on lines that
    hold none of the notebook's arithmetic (143, 153, 155, 183, 330).  The sort
    interval is computed in the notebook: whatever the outside answers, when
    the first valid interval fetched on line 141 is [a, b], the one row handed
    to [SortInterval.insert1] holds [a, a + 180], the sum taken in float64. *)
Theorem C4_sort_interval_is_computed_here :
  map fst (calls "set_group_by_shank") = [115]
  /\ map fst (calls "populate") = [259; 276; 378]
  /\ map fst (calls "precalculate") = [395]
  /\ map fst (calls "experimental_spikesortingview") = [407]
  /\ lines_where (fun s => existsb is_arith (exprs_of s)) = [143; 153; 155; 183; 330]
  /\ forall sch oracle fmt d0 st1 st2 st3 a b rest,
       run_cells sch oracle fmt cells_before_interval (start d0) = (st1, Ok tt) ->
       fetch1 sch (db st1) "IntervalList" [interval_list_key] false
              [DStr "valid_times"]
         = Ok (DArr (DArr [DFloat a; DFloat b] :: rest)) ->
       run_cells sch oracle fmt [cell_interval_list] st1 = (st2, Ok tt) ->
       run_cells sch oracle fmt [cell_sort_interval; cell_sort_interval_insert] st2
         = (st3, Ok tt) ->
       rows_given "SortInterval" (since st2 st3) = [sort_interval_entry a].
Proof.
  repeat (split; [vm_compute; reflexivity|]).
  intros sch oracle fmt d0 st1 st2 st3 a b rest H1 Hf H2 H3.
  exact (proj1 (sort_interval_inserted sch oracle fmt d0 st1 st2 st3 a b rest
                  H1 Hf H2 H3)).
Qed.

Lemma C4_witness :
  rows_given "SortInterval" (since Demo.st_interval_fetched Demo.st_interval_inserted)
  = [sort_interval_entry 100].
Proof.
  apply (proj2 (proj2 (proj2 (proj2 (proj2 C4_sort_interval_is_computed_here))))
           Demo.demo_schema Demo.demo_oracle Demo.demo_format Demo.demo_db
           Demo.st_before_interval Demo.st_interval_fetched
           Demo.st_interval_inserted 100%float 5500%float []).
  - vm_compute. reflexivity.
  - vm_compute. reflexivity.
  - vm_compute. reflexivity.
  - vm_compute. reflexivity.
Defined.

(** C8, as stated, fails in two ways.  When a row is already stored under the
    key of the sort interval, [skip_duplicates] keeps it, and it is what is
    fetched back: [7, 8] here, though the interval list starts at 100.  And the
    end is a float64 sum: for a start of 100.1 s the stored interval spans
    180.00000000000003 s, not 180. *)
Lemma C8_counterexample :
  (snd (Demo.run_demo Demo.cells_to_sort_interval_fetch Demo.stale_db) = Ok tt
   /\ observe Demo.demo_schema Demo.demo_oracle Demo.demo_format
        (ESub (ESub $"interval_list" (EInt 0)) (EInt 0))
        (fst (Demo.run_demo Demo.cells_to_sort_interval_fetch Demo.stale_db))
      = Some (DFloat 100)
   /\ answers_of "SortInterval.fetch1"
        (trace (fst (Demo.run_demo Demo.cells_to_sort_interval_fetch Demo.stale_db)))
      = [Ok (DArr [DFloat 7; DFloat 8])])
  /\ (answers_of "SortInterval.fetch1"
        (trace (fst (Demo.run_demo Demo.cells_to_sort_interval_fetch
                       (Demo.demo_db_from Demo.t_inexact))))
      = [Ok (DArr [DFloat Demo.t_inexact; DFloat (Demo.t_inexact + 180)])]
     /\ PrimFloat.eqb (Demo.t_inexact + 180 - Demo.t_inexact) 180 = false
     /\ (Demo.t_inexact + 180 - Demo.t_inexact = 0x1.6800000000001p+7)%float).
Proof. vm_compute. repeat split. Qed.

(** With [skip_duplicates], an [insert1] of a row whose key is stored leaves
    the database as it was. *)
Lemma insert1_kept sch d t arg d' :
  stores_key sch t arg d = true ->
  insert1 sch d t arg true = Ok d' ->
  d' = d.
Proof.
  unfold stores_key, insert1.
  destruct (as_row sch t arg) as [r|e]; [|discriminate].
  destruct (row_key sch t r) as [k|]; [|discriminate].
  intros -> H. injection H as <-. reflexivity.
Qed.

(** C8, amended: building the sort interval leaves the fetched interval list
    as it was ([np.copy] takes a fresh array, and only the copy is written),
    and the row handed to [SortInterval.insert1] holds [a, a + 180] for a
    first valid interval [a, b], the sum taken in float64; both whatever the
    table held.  What line 181 fetches back is that interval when no row was
    stored under its key; when one was, [skip_duplicates] leaves the database
    as it was and the fetch answers as it would have before the insert. *)
Theorem C8_sort_interval_copied :
  forall sch oracle fmt d0 st1 st2 st' a b rest,
    run_cells sch oracle fmt cells_before_interval (start d0) = (st1, Ok tt) ->
    fetch1 sch (db st1) "IntervalList" [interval_list_key] false [DStr "valid_times"]
      = Ok (DArr (DArr [DFloat a; DFloat b] :: rest)) ->
    run_cells sch oracle fmt [cell_interval_list] st1 = (st2, Ok tt) ->
    run_cells sch oracle fmt cells_sort_interval st2 = (st', Ok tt) ->
    observe sch oracle fmt (ESub $"interval_list" (EInt 0)) st'
      = Some (DArr [DFloat a; DFloat b])
    /\ observe sch oracle fmt $"interval_list" st'
       = Some (DArr (DArr [DFloat a; DFloat b] :: rest))
    /\ rows_given "SortInterval" (since st2 st') = [sort_interval_entry a]
    /\ exists x,
         answers_of "SortInterval.fetch1" (since st2 st') = [Ok x]
         /\ observe sch oracle fmt $"fetched_sort_interval" st' = Some x
         /\ (stores_key sch "SortInterval" (sort_interval_entry a) (db st2) = false ->
             x = DArr [DFloat a; DFloat (a + 180)])
         /\ (stores_key sch "SortInterval" (sort_interval_entry a) (db st2) = true ->
             db st' = db st2
             /\ fetch1 sch (db st2) "SortInterval" [sort_interval_key] false
                       [DStr "sort_interval"] = Ok x).
Proof.
  intros sch oracle fmt d0 st1 st2 st' a b rest H1 Hf H2 H3.
  apply run_before_interval in H1. destruct H1 as [He Hh].
  destruct st1 as [e h d lg]. cbn [env heap db] in *. subst e.
  blocks h. unfold Demo.env_before_interval in H2. unfold interval_list_key in Hf.
  next_cell H2 Hc.
  next_stmt Hc.
  peel Hc Hs. cbn in Hs. rewrite Hf in Hs. crunch Hs.
  next_stmt Hc. end_cell Hc.
  apply run_cells_nil_ok in H2. subst st2. cbn [db].
  unfold cells_sort_interval in H3.
  do 3 run_cell_of H3.
  next_cell H3 Hc.
  peel Hc Hs. reduce_in Hs.
  destruct (fetch1 sch _ "SortInterval" _ false _) as [x|] eqn:Ef; [|discriminate].
  match goal with
  | |- context [stores_key sch "SortInterval" _ ?dd = false -> _] =>
      assert (Hfresh : stores_key sch "SortInterval" (sort_interval_entry a) dd
                       = false ->
                       x = DArr [DFloat a; DFloat (a + 180)]);
      [ intro Hnew; destruct (insert1_fresh _ _ _ _ _ Hnew E1) as (r & Hr & ->);
        apply as_row_dict in Hr; subst r;
        eapply fetch1_of_last in Ef;
        [ exact Ef | apply db_set_same | reflexivity | reflexivity | reflexivity ]
      | assert (Hkept : stores_key sch "SortInterval" (sort_interval_entry a) dd
                        = true ->
                        a1 = dd
                        /\ fetch1 sch dd "SortInterval" [sort_interval_key] false
                                  [DStr "sort_interval"] = Ok x);
        [ intro Hold; pose proof (insert1_kept _ _ _ _ _ Hold E1) as ->;
          split; [reflexivity | exact Ef] | ] ]
  end.
  clear Ef E1.
  crunch Hs.
  next_stmt Hc.
  all: end_cell Hc; apply run_cells_nil_ok in H3; subst st'.
  all: split; [reflexivity|]; split;
    [ refine (pack_thaw_at (DArr (DArr [DFloat a; DFloat b] :: rest)) 13 0 _ _);
      held_here |].
  all: split; [erewrite (since_app _ _ [_; _; _]) by reflexivity; reflexivity|].
  all: eexists; split;
    [erewrite (since_app _ _ [_; _; _]) by reflexivity; reflexivity|].
  all: split; [|split; [exact Hfresh | exact Hkept]].
  all: match goal with
       | |- _ = Some ?x => refine (pack_thaw_at x 21 0 _ _); held_here
       end.
Qed.

Lemma C8_witness :
  observe Demo.demo_schema Demo.demo_oracle Demo.demo_format
    (ESub $"interval_list" (EInt 0)) Demo.st_interval_read_back
    = Some (DArr [DFloat 100; DFloat 5500])
  /\ observe Demo.demo_schema Demo.demo_oracle Demo.demo_format
       $"interval_list" Demo.st_interval_read_back
     = Some (DArr [DArr [DFloat 100; DFloat 5500]])
  /\ rows_given "SortInterval"
       (since Demo.st_interval_fetched Demo.st_interval_read_back)
     = [sort_interval_entry 100]
  /\ exists x,
       answers_of "SortInterval.fetch1"
         (since Demo.st_interval_fetched Demo.st_interval_read_back) = [Ok x]
       /\ observe Demo.demo_schema Demo.demo_oracle Demo.demo_format
            $"fetched_sort_interval" Demo.st_interval_read_back = Some x
       /\ (stores_key Demo.demo_schema "SortInterval" (sort_interval_entry 100)
             (db Demo.st_interval_fetched) = false ->
           x = DArr [DFloat 100; DFloat (100 + 180)])
       /\ (stores_key Demo.demo_schema "SortInterval" (sort_interval_entry 100)
             (db Demo.st_interval_fetched) = true ->
           db Demo.st_interval_read_back = db Demo.st_interval_fetched
           /\ fetch1 Demo.demo_schema (db Demo.st_interval_fetched) "SortInterval"
                     [sort_interval_key] false [DStr "sort_interval"] = Ok x).
Proof.
  apply (C8_sort_interval_copied Demo.demo_schema Demo.demo_oracle Demo.demo_format
           Demo.demo_db Demo.st_before_interval Demo.st_interval_fetched
           Demo.st_interval_read_back 100%float 5500%float []).
  - vm_compute. reflexivity.
  - vm_compute. reflexivity.
  - vm_compute. reflexivity.
  - vm_compute. reflexivity.
Defined.


Section SorterParameters.
Variable sch : schema.
Variable oracle :
  string -> list dval -> list (string * dval) -> database -> database * result dval.
Variable fmt : dval -> string -> string.

End SorterParameters.




